(** * gofi: the item-ingestion pipeline of the terminal file browser

    A shallow embedding of [main.go]: the directory scanner, the two
    buffered channels, the ingestion loop with its [select], the
    [addItem] update path and the input-capture handler, followed by
    the properties of the pipeline.

    Goroutines are modelled as an interleaving of atomic steps over
    one shared [Application] value; every step is tagged with the
    goroutine that performs it. *)

From Stdlib Require Import ZArith List String Ascii Bool Lia DecimalString.
Import ListNotations.
Open Scope string_scope.
Open Scope list_scope.
Open Scope Z_scope.

Set Implicit Arguments.

(* ================================================================= *)
(** ** Strings and formatting ([fmt], [log]) *)

Module Fmt.
Local Open Scope string_scope.

(** The newline character of a Go string literal. *)
Definition nl : string := String (ascii_of_nat 10) EmptyString.

(** The verb [%d] at a Go [int]. *)
Definition itoa (z : Z) : string := NilZero.string_of_int (Z.to_int z).

(** [fmt.Println] puts a blank between its operands and ends the line. *)
Definition Println (operands : list string) : string :=
  String.concat " " operands ++ nl.

(** [log.Printf] ends the line when the format does not. *)
Definition Printfln (formatted : string) : string := formatted ++ nl.

(** [sub] occurs somewhere in [s]. *)
Definition Contains (s sub : string) : Prop :=
  exists pre post, s = pre ++ sub ++ post.

(** Go's [int] is 64 bits wide on the platforms tview runs on. *)
Definition wrap_int (z : Z) : Z :=
  (z + 2 ^ 63) mod 2 ^ 64 - 2 ^ 63.

End Fmt.

(* ================================================================= *)
(** ** Buffered Go channels *)

Module Chan.

Record t (A : Type) : Type := mk
  { buf : list A;        (* values sent and not yet received, oldest first *)
    cap : nat;           (* the capacity given to [make] *)
    closed : bool }.

Arguments mk {A} _ _ _.

Definition make {A} (capacity : nat) : t A := mk [] capacity false.

Inductive sent (A : Type) : Type :=
| Sent (c : t A)         (* the value went into the buffer *)
| SendBlocks             (* buffer full: the sender waits *)
| SendPanics.            (* "send on closed channel" *)

Arguments Sent {A} _.
Arguments SendBlocks {A}.
Arguments SendPanics {A}.

(** [c <- v]. *)
Definition send {A} (c : t A) (v : A) : sent A :=
  if closed c then SendPanics
  else if (List.length (buf c) <? cap c)%nat
       then Sent (mk (buf c ++ [v]) (cap c) false)
       else SendBlocks.

(** A receive case of a [select] can proceed. *)
Definition ready {A} (c : t A) : bool :=
  match buf c with
  | [] => closed c
  | _ :: _ => true
  end.

(** [v := <-c] when it can proceed; a closed and drained channel
    yields the zero value. *)
Definition recv {A} (zero : A) (c : t A) : option (A * t A) :=
  match buf c with
  | v :: rest => Some (v, mk rest (cap c) (closed c))
  | [] => if closed c then Some (zero, c) else None
  end.

(** [close(c)]; closing twice panics. *)
Definition close {A} (c : t A) : option (t A) :=
  if closed c then None else Some (mk (buf c) (cap c) true).

End Chan.

(* ================================================================= *)
(** ** Items *)

Record Item : Type := mkItem
  { Title : string;
    Description : string;
    Footer : string }.

Definition zeroItem : Item := mkItem "" "" "".

(* ================================================================= *)
(** ** The scanner's collaborators: [os], [ioutil], [godoc/util] *)

Inductive result (A : Type) : Type :=
| Ok (a : A)
| Err (e : string).

Arguments Ok {A} _.
Arguments Err {A} _.

(** What [scanDirectory] reads of an [os.FileInfo] returned by [os.Stat]. *)
Record FileStat : Type := mkStat
  { Size : Z;
    Mode : Z;
    IsDir : bool }.

Record OS : Type := mkOS
  { Args : list string;                          (* os.Args *)
    Getwd : result string;                       (* os.Getwd() *)
    ReadDir : string -> result (list string);    (* names of ioutil.ReadDir *)
    Stat : string -> result FileStat;            (* os.Stat *)
    IsTextFile : string -> bool;                 (* util.IsTextFile(vfs.OS("/"), _) *)
    ModeString : Z -> string }.                  (* FileMode.String() *)

(* ================================================================= *)
(** ** scanDirectory *)

Module Scanner.

(** What the scanner goroutine does, in order. *)
Inductive event : Type :=
| Log (line : string)
| Send (item : Item).

(** How the goroutine's function ends. *)
Inductive exit : Type :=
| Returned
| Panicked.

Definition sends (tr : list event) : list Item :=
  flat_map (fun e => match e with Send i => [i] | Log _ => [] end) tr.

Definition fullPath (path name : string) : string :=
  (path ++ "/" ++ name)%string.

Definition describe (os : OS) (path : string) (st : FileStat)
           (isDir fileFormat : string) : string :=
  ("File size: " ++ Fmt.itoa (Size st) ++ Fmt.nl ++
   "Parent dir: " ++ path ++ Fmt.nl ++
   "File mode: " ++ ModeString os (Mode st) ++ Fmt.nl ++
   "Directory: " ++ isDir ++ Fmt.nl ++
   "File format: " ++ fileFormat)%string.

(** The body of [for _, file := range files] for one entry. *)
Definition scanEntry (os : OS) (path name : string) : list event :=
  Log (Fmt.Println ["Adding "; name]) ::
  match Stat os (fullPath path name) with
  | Err err =>
      [Log (Fmt.Printfln ("Unable to get stat of '" ++ name ++ "'. " ++ err)%string)]
  | Ok fileStat =>
      let isDir := if IsDir fileStat then "Yes" else "No" in
      let fileFormat :=
        if IsTextFile os (fullPath path name) then "Text" else "Bin" in
      [Send (mkItem name
                    (describe os path fileStat isDir fileFormat)
                    (fullPath path name))]
  end.

Definition scanEntries (os : OS) (path : string) (files : list string)
  : list event :=
  flat_map (scanEntry os path) files.

(** The listing step and the loop, once the path is known. *)
Definition scanPath (os : OS) (path : string) : list event :=
  match ReadDir os path with
  | Err err => [Log (Fmt.Println ["Unable to read dir: "; path; err])]
  | Ok files => scanEntries os path files
  end.

Definition scanDirectory (os : OS) : list event * exit :=
  match Args os with
  | [_] =>
      match Getwd os with
      | Err err =>
          ([Log (Fmt.Println ["No path, using current working directory"]);
            Log (Fmt.Println ["Unable to get current directory. "; err])],
           Returned)
      | Ok currentDir =>
          (Log (Fmt.Println ["No path, using current working directory"]) ::
           Log (Fmt.Println ["Current directory: "; currentDir]) ::
           scanPath os currentDir,
           Returned)
      end
  | _ :: path :: _ =>
      (Log (Fmt.Println ["Path: "; path]) :: scanPath os path, Returned)
  | [] => ([], Panicked)        (* os.Args[1]: index out of range *)
  end.

(** The directory the scan targets, when it gets that far. *)
Definition target (os : OS) : option string :=
  match Args os with
  | [_] => match Getwd os with Ok d => Some d | Err _ => None end
  | _ :: path :: _ => Some path
  | [] => None
  end.

End Scanner.

(* ================================================================= *)
(** ** Results of code that can wait or panic *)

Inductive outcome (A : Type) : Type :=
| Done (a : A)       (* ran to its end *)
| Blocks             (* waits on a channel or on the UI *)
| Panics             (* run-time panic: the process dies *)
| Over.              (* the goroutine has already ended *)

Arguments Done {A} _.
Arguments Blocks {A}.
Arguments Panics {A}.
Arguments Over {A}.

Definition bind {A B} (m : outcome A) (k : A -> outcome B) : outcome B :=
  match m with
  | Done a => k a
  | Blocks => Blocks
  | Panics => Panics
  | Over => Over
  end.

Notation "x <- m ;; k" := (bind m (fun x => k))
  (at level 61, m at next level, right associativity).

(* ================================================================= *)
(** ** tcell key events and tview primitives *)

Inductive Key : Type :=
| KeyRune
| KeyCtrlC
| KeyUp
| KeyDown
| KeyOther (code : Z).

Inductive ModMask : Type :=
| ModNone
| ModCtrl
| ModOther (mask : Z).

Record EventKey : Type := NewEventKey
  { EvKey : Key;
    EvRune : Z;
    EvMod : ModMask }.

Definition Key_eqb (a b : Key) : bool :=
  match a, b with
  | KeyRune, KeyRune | KeyCtrlC, KeyCtrlC
  | KeyUp, KeyUp | KeyDown, KeyDown => true
  | KeyOther x, KeyOther y => x =? y
  | _, _ => false
  end.

(** Keycodes *)
Definition J : Z := 106.
Definition K : Z := 107.
Definition Q : Z := 113.

(** The primitives that can hold the focus. *)
Inductive Primitive : Type :=
| ListView
| HeaderView
| FooterView
| DescriptionView
| FlexView.

Definition Primitive_eqb (a b : Primitive) : bool :=
  match a, b with
  | ListView, ListView | HeaderView, HeaderView | FooterView, FooterView
  | DescriptionView, DescriptionView | FlexView, FlexView => true
  | _, _ => false
  end.

(** A function handed to [QueueUpdateDraw], as data: the closure of
    [addItem] captures [app] and [item]. *)
Inductive Update : Type :=
| AddItemDraw (item : Item).

(** The part of [tview.Application] the program relies on. *)
Record TviewApplication : Type := mkTview
  { focus : Primitive;          (* GetFocus() *)
    updates : list Update;      (* queued by QueueUpdateDraw, oldest first *)
    stopped : bool }.           (* the event loop of Run() has ended *)

(* ================================================================= *)
(** ** Application *)

Record Application : Type := mkApp
  { application : TviewApplication;
    listView : list string;             (* main texts of the list's entries *)
    headerView : string;
    footerView : string;
    descriptionView : string;
    items : list Item;
    selectedItemIndex : Z;
    itemAdded : Chan.t Item;
    stopReceiveNewItem : Chan.t bool;
    waitgroup : Z }.

Definition set_application (f : TviewApplication -> TviewApplication)
           (a : Application) : Application :=
  mkApp (f (application a)) (listView a) (headerView a) (footerView a)
        (descriptionView a) (items a) (selectedItemIndex a) (itemAdded a)
        (stopReceiveNewItem a) (waitgroup a).

Definition set_listView (v : list string) (a : Application) : Application :=
  mkApp (application a) v (headerView a) (footerView a)
        (descriptionView a) (items a) (selectedItemIndex a) (itemAdded a)
        (stopReceiveNewItem a) (waitgroup a).

Definition set_headerView (v : string) (a : Application) : Application :=
  mkApp (application a) (listView a) v (footerView a)
        (descriptionView a) (items a) (selectedItemIndex a) (itemAdded a)
        (stopReceiveNewItem a) (waitgroup a).

Definition set_footerView (v : string) (a : Application) : Application :=
  mkApp (application a) (listView a) (headerView a) v
        (descriptionView a) (items a) (selectedItemIndex a) (itemAdded a)
        (stopReceiveNewItem a) (waitgroup a).

Definition set_descriptionView (v : string) (a : Application) : Application :=
  mkApp (application a) (listView a) (headerView a) (footerView a)
        v (items a) (selectedItemIndex a) (itemAdded a)
        (stopReceiveNewItem a) (waitgroup a).

Definition set_items (v : list Item) (a : Application) : Application :=
  mkApp (application a) (listView a) (headerView a) (footerView a)
        (descriptionView a) v (selectedItemIndex a) (itemAdded a)
        (stopReceiveNewItem a) (waitgroup a).

Definition set_selectedItemIndex (v : Z) (a : Application) : Application :=
  mkApp (application a) (listView a) (headerView a) (footerView a)
        (descriptionView a) (items a) v (itemAdded a)
        (stopReceiveNewItem a) (waitgroup a).

Definition set_itemAdded (v : Chan.t Item) (a : Application) : Application :=
  mkApp (application a) (listView a) (headerView a) (footerView a)
        (descriptionView a) (items a) (selectedItemIndex a) v
        (stopReceiveNewItem a) (waitgroup a).

Definition set_stopReceiveNewItem (v : Chan.t bool) (a : Application)
  : Application :=
  mkApp (application a) (listView a) (headerView a) (footerView a)
        (descriptionView a) (items a) (selectedItemIndex a) (itemAdded a)
        v (waitgroup a).

Definition set_waitgroup (v : Z) (a : Application) : Application :=
  mkApp (application a) (listView a) (headerView a) (footerView a)
        (descriptionView a) (items a) (selectedItemIndex a) (itemAdded a)
        (stopReceiveNewItem a) v.

Definition set_focus (p : Primitive) (t : TviewApplication) : TviewApplication :=
  mkTview p (updates t) (stopped t).

Definition set_updates (u : list Update) (t : TviewApplication)
  : TviewApplication :=
  mkTview (focus t) u (stopped t).

Definition set_stopped (b : bool) (t : TviewApplication) : TviewApplication :=
  mkTview (focus t) (updates t) b.

(** [newApplication]: fresh widgets, no items, the two channels with
    their capacities.  The focus is the one [SetRoot(flex, true)] gives:
    the flex hands it to the list, its only item added with focus. *)
Definition newApplication : Application :=
  mkApp (mkTview ListView [] false)
        [] "" "" ""
        [] 0
        (Chan.make 100)
        (Chan.make 10)
        0.

(** [fmt.Sprintf("%d/%d: %s", index+1, len(app.items), footer)] *)
Definition footerText (index : Z) (a : Application) (footer : string) : string :=
  (Fmt.itoa (Fmt.wrap_int (index + 1)) ++ "/" ++
   Fmt.itoa (Z.of_nat (List.length (items a))) ++ ": " ++ footer)%string.

(** [app.items[index]] *)
Definition itemAt (a : Application) (index : Z) : option Item :=
  if index <? 0 then None else nth_error (items a) (Z.to_nat index).

(** The function given to [listView.SetChangedFunc]. *)
Definition changedFunc (index : Z) (a : Application) : outcome Application :=
  let a := set_selectedItemIndex index a in
  match itemAt a index with
  | None => Panics                       (* index out of range *)
  | Some item =>
      let a := set_headerView (Title item) a in
      let a := set_descriptionView (Description item) a in
      Done (set_footerView (footerText index a (Footer item)) a)
  end.

(** The function given to [listView.SetMouseCapture]. *)
Definition mouseCapture (a : Application) : Application :=
  set_application (set_focus ListView) a.

(** [app.stopReceiveNewItem <- true] *)
Definition sendStop (a : Application) : outcome Application :=
  match Chan.send (stopReceiveNewItem a) true with
  | Chan.Sent c => Done (set_stopReceiveNewItem c a)
  | Chan.SendBlocks => Blocks
  | Chan.SendPanics => Panics
  end.

(** The token sent [n] times in a row. *)
Fixpoint sendStops (n : nat) (a : Application) : outcome Application :=
  match n with
  | O => Done a
  | S n => a' <- sendStop a ;; sendStops n a'
  end.

(** The function given to [application.SetInputCapture]: the state
    after it and the event it returns. *)
Definition inputCapture (event : EventKey) (a : Application)
  : outcome (Application * EventKey) :=
  a <- (if Key_eqb (EvKey event) KeyCtrlC then sendStop a else Done a) ;;
  if Primitive_eqb (focus (application a)) ListView then
    if EvRune event =? J then Done (a, NewEventKey KeyDown 0 ModNone)
    else if EvRune event =? K then Done (a, NewEventKey KeyUp 0 ModNone)
    else if EvRune event =? Q then
      a <- sendStop a ;;
      Done (a, NewEventKey KeyCtrlC 0 ModCtrl)
    else Done (a, event)
  else Done (a, event).

(** The closure of [addItem], run by the UI goroutine. *)
Definition runUpdate (u : Update) (a : Application) : Application :=
  match u with
  | AddItemDraw item =>
      let a := set_listView (listView a ++ [Title item]) a in
      set_footerView (footerText (selectedItemIndex a) a (Footer item)) a
  end.

(** [addItem], up to the point where [QueueUpdateDraw] has queued the
    closure and waits for the UI goroutine to have run it. *)
Definition addItem (item : Item) (a : Application) : Application :=
  let a := set_items (items a ++ [item]) a in
  set_application (fun t => set_updates (updates t ++ [AddItemDraw item]) t) a.

(* ================================================================= *)
(** ** The ingestion loop of [start] *)

(** Where the loop's goroutine stands. *)
Inductive Loop : Type :=
| Running                (* at the [select] *)
| InQueueUpdateDraw      (* inside [addItem], until the closure has run *)
| Stopped.               (* after [break NEW_ITEM_LOOP] *)

(** Go's [select] takes one of the cases that can proceed by a
    pseudo-random choice; [Pick] is that choice when both can. *)
Inductive Pick : Type :=
| PickStop
| PickItem.

Inductive Case : Type :=
| CaseStop
| CaseItem
| CaseDefault.

Definition select (pick : Pick) (a : Application) : Case :=
  match Chan.ready (stopReceiveNewItem a), Chan.ready (itemAdded a) with
  | true, true => match pick with PickStop => CaseStop | PickItem => CaseItem end
  | true, false => CaseStop
  | false, true => CaseItem
  | false, false => CaseDefault
  end.

(** [app.waitgroup.Done()] *)
Definition waitgroupDone (a : Application) : outcome Application :=
  if waitgroup a - 1 <? 0 then Panics
  else Done (set_waitgroup (waitgroup a - 1) a).

(** The stop case: the token is taken, the item channel closed with
    its buffer untouched, the wait group released. *)
Definition afterStop (a : Application) (tokens : list bool) : Application :=
  set_waitgroup (waitgroup a - 1)
    (set_itemAdded
       (Chan.mk (Chan.buf (itemAdded a)) (Chan.cap (itemAdded a)) true)
       (set_stopReceiveNewItem
          (Chan.mk tokens (Chan.cap (stopReceiveNewItem a)) false) a)).

(** The item case: the oldest item is taken and given to [addItem]. *)
Definition afterItem (a : Application) (item : Item) (rest : list Item)
  : Application :=
  addItem item (set_itemAdded (Chan.mk rest (Chan.cap (itemAdded a)) false) a).

(** One pass through the body of [for { select { ... } }]. *)
Definition loopIteration (pick : Pick) (a : Application)
  : outcome (Application * Loop) :=
  match select pick a with
  | CaseStop =>
      match Chan.recv false (stopReceiveNewItem a) with
      | None => Blocks
      | Some (stop, c) =>
          let a := set_stopReceiveNewItem c a in
          if stop then
            match Chan.close (itemAdded a) with
            | None => Panics
            | Some ch =>
                a <- waitgroupDone (set_itemAdded ch a) ;;
                Done (a, Stopped)
            end
          else Done (a, Running)
      end
  | CaseItem =>
      match Chan.recv zeroItem (itemAdded a) with
      | None => Blocks
      | Some (newItem, c) =>
          Done (addItem newItem (set_itemAdded c a), InQueueUpdateDraw)
      end
  | CaseDefault => Done (a, Running)
  end.

(* ================================================================= *)
(** ** The three goroutines together *)

Inductive Thread : Type :=
| TScanner
| TIngest
| TUI.

Inductive Label : Type :=
| LScan                    (* the scanner's next log line or send *)
| LLoop (pick : Pick)      (* one pass of the ingestion loop *)
| LUpdate                  (* the UI runs the oldest queued update *)
| LKey (event : EventKey)  (* the UI receives a key *)
| LChanged (index : Z)     (* the list reports a changed selection *)
| LMouse.                  (* the UI receives a mouse event on the list *)

Definition thread_of (l : Label) : Thread :=
  match l with
  | LScan => TScanner
  | LLoop _ => TIngest
  | LUpdate | LKey _ | LChanged _ | LMouse => TUI
  end.

Record System : Type := mkSystem
  { app : Application;
    scanner : list Scanner.event;     (* what [scanDirectory] has left to do *)
    scannerExit : Scanner.exit;       (* how it ends after that *)
    loop : Loop }.

(** The state [main] reaches when [start] calls [Run()]. *)
Definition init (os : OS) : System :=
  mkSystem (set_waitgroup 1 newApplication)
           (fst (Scanner.scanDirectory os))
           (snd (Scanner.scanDirectory os))
           Running.

Definition scanStep (s : System) : outcome System :=
  match scanner s with
  | [] => match scannerExit s with
          | Scanner.Returned => Over
          | Scanner.Panicked => Panics
          end
  | Scanner.Log _ :: rest => Done (mkSystem (app s) rest (scannerExit s) (loop s))
  | Scanner.Send item :: rest =>
      match Chan.send (itemAdded (app s)) item with
      | Chan.Sent c =>
          Done (mkSystem (set_itemAdded c (app s)) rest (scannerExit s) (loop s))
      | Chan.SendBlocks => Blocks
      | Chan.SendPanics => Panics
      end
  end.

Definition loopStep (pick : Pick) (s : System) : outcome System :=
  match loop s with
  | Running =>
      r <- loopIteration pick (app s) ;;
      Done (mkSystem (fst r) (scanner s) (scannerExit s) (snd r))
  | InQueueUpdateDraw => Blocks
  | Stopped => Over
  end.

(** The event loop takes the oldest queued update, runs it and lets
    the goroutine that queued it go on. *)
Definition updateStep (s : System) : outcome System :=
  if stopped (application (app s)) then Over else
  match updates (application (app s)) with
  | [] => Blocks
  | u :: rest =>
      let a := set_application (set_updates rest) (app s) in
      Done (mkSystem (runUpdate u a) (scanner s) (scannerExit s)
                     (match loop s with
                      | InQueueUpdateDraw => Running
                      | l => l
                      end))
  end.

(** A key goes through the input capture; tview stops the event loop
    when the event that comes back is Ctrl+C. *)
Definition keyStep (event : EventKey) (s : System) : outcome System :=
  if stopped (application (app s)) then Over else
  r <- inputCapture event (app s) ;;
  let a := if Key_eqb (EvKey (snd r)) KeyCtrlC
           then set_application (set_stopped true) (fst r)
           else fst r in
  Done (mkSystem a (scanner s) (scannerExit s) (loop s)).

Definition changedStep (index : Z) (s : System) : outcome System :=
  if stopped (application (app s)) then Over else
  a <- changedFunc index (app s) ;;
  Done (mkSystem a (scanner s) (scannerExit s) (loop s)).

Definition mouseStep (s : System) : outcome System :=
  if stopped (application (app s)) then Over else
  Done (mkSystem (mouseCapture (app s)) (scanner s) (scannerExit s) (loop s)).

Definition step (l : Label) (s : System) : outcome System :=
  match l with
  | LScan => scanStep s
  | LLoop pick => loopStep pick s
  | LUpdate => updateStep s
  | LKey event => keyStep event s
  | LChanged index => changedStep index s
  | LMouse => mouseStep s
  end.

(** A schedule, run until its end or until a step does not complete. *)
Fixpoint run (ls : list Label) (s : System) : outcome System :=
  match ls with
  | [] => Done s
  | l :: ls => s' <- step l s ;; run ls s'
  end.

(** The items the scanner has still to send. *)
Definition pending (s : System) : list Item := Scanner.sends (scanner s).

(** The schedule in which every send of the scanner is at once
    received by the loop and drawn by the UI. *)
Definition drain (tr : list Scanner.event) : list Label :=
  flat_map (fun e => match e with
                     | Scanner.Log _ => [LScan]
                     | Scanner.Send _ => [LScan; LLoop PickItem; LUpdate]
                     end) tr.

(** What holds of every state the three goroutines can reach, [sent]
    being all the items the scanner sends: they are the items of the
    application, then the channel's buffer, then the scanner's rest;
    and the item channel is closed by the stopping loop only. *)
Definition Inv (sent : list Item) (s : System) : Prop :=
  sent = items (app s) ++ Chan.buf (itemAdded (app s)) ++ pending s /\
  (loop s <> Stopped -> Chan.closed (itemAdded (app s)) = false).

(* ================================================================= *)
(** ** The end of [start], and what every reachable state keeps *)

(** [app.waitgroup.Wait()], the last call of [start]. *)
Definition waitgroupWait (a : Application) : outcome Application :=
  if waitgroup a =? 0 then Done a else Blocks.

(** The main text a queued closure hands to [listView.AddItem]. *)
Definition updateTitle (u : Update) : string :=
  match u with
  | AddItemDraw item => Title item
  end.

(** [os.Stat] succeeds on the entry [name] of [path]. *)
Definition statable (os : OS) (path name : string) : bool :=
  match Stat os (Scanner.fullPath path name) with
  | Ok _ => true
  | Err _ => false
  end.

(** What the wait group counts: the loop, from [Add(1)] to [Done()]. *)
Definition goroutinesCounted (l : Loop) : Z :=
  match l with
  | Running => 1
  | InQueueUpdateDraw => 1
  | Stopped => 0
  end.

(** The channels and the wait group in a reachable state: the signal
    channel stays open and holds [true] tokens only, both channels keep
    their capacity and never hold more, and the wait group counts the
    loop until it has stopped, which is when the item channel is closed. *)
Definition Safe (s : System) : Prop :=
  Chan.closed (stopReceiveNewItem (app s)) = false /\
  (forall b, In b (Chan.buf (stopReceiveNewItem (app s))) -> b = true) /\
  Chan.cap (stopReceiveNewItem (app s)) = 10%nat /\
  (List.length (Chan.buf (stopReceiveNewItem (app s))) <= 10)%nat /\
  Chan.cap (itemAdded (app s)) = 100%nat /\
  (List.length (Chan.buf (itemAdded (app s))) <= 100)%nat /\
  waitgroup (app s) = goroutinesCounted (loop s) /\
  (Chan.closed (itemAdded (app s)) = true <-> loop s = Stopped).

(** The list widget in a reachable state: it shows the titles of
    [items] but for the one update the loop may be waiting for. *)
Definition Mirror (s : System) : Prop :=
  map Title (items (app s)) =
    listView (app s) ++ map updateTitle (updates (application (app s))) /\
  match updates (application (app s)) with
  | [] => (loop s <> InQueueUpdateDraw)
  | [_] => (loop s = InQueueUpdateDraw)
  | _ :: _ :: _ => False
  end.

(** The selection and the queue in a reachable state: the selected
    index is never negative and, once there are items, is one of
    theirs; a queued update is the one of the item appended last. *)
Definition Selected (s : System) : Prop :=
  0 <= selectedItemIndex (app s) /\
  (selectedItemIndex (app s) = 0 \/
   selectedItemIndex (app s) < Z.of_nat (List.length (items (app s)))) /\
  forall item rest,
    updates (application (app s)) = AddItemDraw item :: rest ->
    exists front, items (app s) = front ++ [item].

(* ================================================================= *)
(** ** The directory-listing example *)

Module Listing.

(** [fmt.Printf("%s %s\n", fileStat.Mode(), file.Name())] *)
Definition line (os : OS) (name : string) (st : FileStat) : string :=
  (ModeString os (Mode st) ++ " " ++ name ++ Fmt.nl)%string.

(** The loop over the entries: what is printed, and whether
    [panicIfError] let it reach the end. *)
Fixpoint printEntries (os : OS) (currentDir : string) (files : list string)
  : list string * Scanner.exit :=
  match files with
  | [] => ([], Scanner.Returned)
  | name :: rest =>
      match Stat os (currentDir ++ "/" ++ name)%string with
      | Err _ => ([], Scanner.Panicked)
      | Ok fileStat =>
          let r := printEntries os currentDir rest in
          (line os name fileStat :: fst r, snd r)
      end
  end.

(** [main] of the example. *)
Definition main (os : OS) : list string * Scanner.exit :=
  match Getwd os with
  | Err _ => ([], Scanner.Panicked)
  | Ok currentDir =>
      let header :=
        ("Current working directory is: " ++ currentDir ++ Fmt.nl)%string in
      match ReadDir os currentDir with
      | Err _ => ([header], Scanner.Panicked)
      | Ok files =>
          let r := printEntries os currentDir files in
          (header :: fst r, snd r)
      end
  end.

End Listing.

(* ================================================================= *)
(** ** A small directory to run the program on *)

Module Example.

Definition a_txt : FileStat := mkStat 10 420 false.
Definition b_dir : FileStat := mkStat 4096 2147484141 true.

Definition modeString (m : Z) : string :=
  if m =? 420 then "-rw-r--r--" else "drwxr-xr-x".

(** [gofi /d] where [/d] holds the text file [a.txt] of ten bytes and
    the directory [b]. *)
Definition os_ab : OS :=
  mkOS ["gofi"; "/d"]
       (Ok "/home")
       (fun _ => Ok ["a.txt"; "b"])
       (fun p => if String.eqb p "/d/a.txt" then Ok a_txt
                 else if String.eqb p "/d/b" then Ok b_dir
                 else Err "no such file or directory")
       (fun p => String.eqb p "/d/a.txt")
       modeString.

(** The same directory with a dangling link [x] between the two. *)
Definition os_axb : OS :=
  mkOS ["gofi"; "/d"]
       (Ok "/home")
       (fun _ => Ok ["a.txt"; "x"; "b"])
       (Stat os_ab)
       (IsTextFile os_ab)
       modeString.

(** [gofi] started where the working directory cannot be resolved. *)
Definition os_nowd : OS :=
  mkOS ["gofi"]
       (Err "getwd: no such file or directory")
       (fun _ => Ok ["a.txt"; "b"])
       (Stat os_ab)
       (IsTextFile os_ab)
       modeString.

(** [gofi /d] where [/d] holds [a.txt] only. *)
Definition os_a : OS :=
  mkOS ["gofi"; "/d"]
       (Ok "/home")
       (fun _ => Ok ["a.txt"])
       (Stat os_ab)
       (IsTextFile os_ab)
       modeString.

(** [gofi /d] where [/d] holds [a.txt], [b] and the empty file [c]. *)
Definition c_file : FileStat := mkStat 0 420 false.

Definition os_abc : OS :=
  mkOS ["gofi"; "/d"]
       (Ok "/home")
       (fun _ => Ok ["a.txt"; "b"; "c"])
       (fun p => if String.eqb p "/d/c" then Ok c_file else Stat os_ab p)
       (IsTextFile os_ab)
       modeString.

Definition item_c : Item :=
  mkItem "c" (Scanner.describe os_abc "/d" c_file "No" "Bin") "/d/c".

Definition item_a : Item :=
  mkItem "a.txt"
         (Scanner.describe os_ab "/d" a_txt "No" "Text")
         "/d/a.txt".

Definition item_b : Item :=
  mkItem "b"
         (Scanner.describe os_ab "/d" b_dir "Yes" "Bin")
         "/d/b".

(** One item and one shutdown token wait in the channels. *)
Definition both_pending : Application :=
  set_stopReceiveNewItem (Chan.mk [true] 10 false)
    (set_itemAdded (Chan.mk [item_a] 100 false)
       (set_waitgroup 1 newApplication)).

Definition ctrlC : EventKey := NewEventKey KeyCtrlC 3 ModCtrl.
Definition keyQ : EventKey := NewEventKey KeyRune Q ModNone.

End Example.

Module Sample.

(** [gofi] started in [/d], which holds [a.txt] and [b]. *)
Definition os_cwd : OS :=
  mkOS ["gofi"]
       (Ok "/d")
       (fun _ => Ok ["a.txt"; "b"])
       (Stat Example.os_ab)
       (IsTextFile Example.os_ab)
       Example.modeString.

(** [gofi] started in [/d], which holds [a.txt], the dangling link [x]
    and [b]. *)
Definition os_cwd_axb : OS :=
  mkOS ["gofi"]
       (Ok "/d")
       (fun _ => Ok ["a.txt"; "x"; "b"])
       (Stat Example.os_ab)
       (IsTextFile Example.os_ab)
       Example.modeString.

Definition keyJ : EventKey := NewEventKey KeyRune J ModNone.

(** The state a schedule ends in. *)
Definition after (ls : list Label) (os : OS) : System :=
  match run ls (init os) with
  | Done s => s
  | _ => init os
  end.


(** [gofi /d] with [a.txt] next to be sent. *)
Definition before_send : System := after [LScan; LScan] Example.os_a.

(** [a.txt] waits in the channel and Ctrl+C has been pressed. *)
Definition quitting : System :=
  after [LScan; LScan; LScan; LKey Example.ctrlC] Example.os_a.

(** [a.txt] is shown, [b] has been received and waits to be drawn. *)
Definition drawing : System :=
  after [LScan; LScan; LScan; LLoop PickItem; LUpdate;
         LScan; LScan; LLoop PickItem] Example.os_ab.

(** [a.txt] is shown, Ctrl+C has been pressed and the loop has stopped
    with [b] still to be sent. *)
Definition stopped_early : System :=
  after [LScan; LScan; LScan; LLoop PickItem; LUpdate;
         LKey Example.ctrlC; LLoop PickStop; LScan] Example.os_ab.

(** [a.txt] and [b] are shown, nothing is queued. *)
Definition two_shown : Application :=
  mkApp (mkTview DescriptionView [] false)
        ["a.txt"; "b"] "a.txt" "1/2: /d/b" ""
        [Example.item_a; Example.item_b] 0
        (Chan.make 100) (Chan.make 10) 1.

End Sample.

(* ================================================================= *)
(** * Properties *)

(* ================================================================= *)
(** ** The scanner *)

Module ScannerFacts.
Import Scanner.

Lemma sends_app (t1 t2 : list event) :
  sends (t1 ++ t2) = sends t1 ++ sends t2.
Proof. unfold sends. apply flat_map_app. Qed.

Lemma scanEntries_app (os : OS) (path : string) (l1 l2 : list string) :
  scanEntries os path (l1 ++ l2) = scanEntries os path l1 ++ scanEntries os path l2.
Proof. unfold scanEntries. apply flat_map_app. Qed.

Lemma scanEntries_cons (os : OS) (path name : string) (l : list string) :
  scanEntries os path (name :: l) = scanEntry os path name ++ scanEntries os path l.
Proof. reflexivity. Qed.

(** An entry whose stat fails sends nothing and leaves a log line. *)
Lemma scanEntry_stat_failure (os : OS) (path name e : string) :
  Stat os (fullPath path name) = Err e ->
  scanEntry os path name =
    [Log (Fmt.Println ["Adding "; name]);
     Log (Fmt.Printfln ("Unable to get stat of '" ++ name ++ "'. " ++ e)%string)].
Proof. intros H. unfold scanEntry. rewrite H. reflexivity. Qed.

(** An entry whose stat succeeds sends exactly one item, titled by its name. *)
Lemma scanEntry_stat_ok (os : OS) (path name : string) (st : FileStat) :
  Stat os (fullPath path name) = Ok st ->
  sends (scanEntry os path name) =
    [mkItem name
            (describe os path st
                      (if IsDir st then "Yes" else "No")
                      (if IsTextFile os (fullPath path name) then "Text" else "Bin"))
            (fullPath path name)].
Proof. intros H. unfold scanEntry. rewrite H. reflexivity. Qed.

Lemma titles_when_all_stat (os : OS) (path : string) (l : list string) :
  (forall n, In n l -> exists st, Stat os (fullPath path n) = Ok st) ->
  map Title (sends (scanEntries os path l)) = l.
Proof.
  induction l as [|n l IH]; intros Hall; [reflexivity|].
  rewrite scanEntries_cons, sends_app, map_app.
  destruct (Hall n (or_introl eq_refl)) as [st Hst].
  rewrite (scanEntry_stat_ok _ _ _ Hst). simpl.
  f_equal. apply IH. intros m Hm. apply Hall. now right.
Qed.

(** Every send of the loop comes from one listed entry that could be stat'ed. *)
Lemma in_sends_scanEntries (os : OS) (path : string) (l : list string) (item : Item) :
  In item (sends (scanEntries os path l)) ->
  exists name st,
    In name l /\ Stat os (fullPath path name) = Ok st /\
    item = mkItem name
             (describe os path st
                       (if IsDir st then "Yes" else "No")
                       (if IsTextFile os (fullPath path name) then "Text" else "Bin"))
             (fullPath path name).
Proof.
  induction l as [|n l IH]; intros Hin; [contradiction|].
  rewrite scanEntries_cons, sends_app in Hin.
  apply in_app_or in Hin. destruct Hin as [Hin|Hin].
  - unfold scanEntry in Hin.
    destruct (Stat os (fullPath path n)) as [st|e] eqn:Hst; simpl in Hin.
    + destruct Hin as [<-|[]]. exists n, st. simpl. auto.
    + contradiction.
  - destruct (IH Hin) as (name & st & Hn & Hst & ->).
    exists name, st. simpl. auto.
Qed.

(** Once the target directory is known the scan is the listing step. *)
Lemma scanDirectory_target (os : OS) (path : string) :
  target os = Some path ->
  sends (fst (scanDirectory os)) = sends (scanPath os path) /\
  snd (scanDirectory os) = Returned.
Proof.
  unfold target, scanDirectory.
  destruct (Args os) as [|prog [|p rest]].
  - discriminate.
  - destruct (Getwd os) as [d|e]; [|discriminate].
    intros [= ->]. split; reflexivity.
  - intros [= ->]. split; reflexivity.
Qed.

(** Before the listing step the scan only writes log lines. *)
Lemma scanDirectory_trace (os : OS) (path : string) :
  target os = Some path ->
  exists intro, fst (scanDirectory os) = intro ++ scanPath os path /\
                sends intro = [].
Proof.
  unfold target, scanDirectory.
  destruct (Args os) as [|prog [|p rest]].
  - discriminate.
  - destruct (Getwd os) as [d|e]; [|discriminate].
    intros [= ->]. eexists [_; _]. split; reflexivity.
  - intros [= ->]. eexists [_]. split; reflexivity.
Qed.

Lemma scanDirectory_no_target (os : OS) :
  target os = None ->
  sends (fst (scanDirectory os)) = [].
Proof.
  unfold target, scanDirectory.
  destruct (Args os) as [|prog [|p rest]]; try discriminate; [reflexivity|].
  destruct (Getwd os) as [d|e]; [discriminate|reflexivity].
Qed.

End ScannerFacts.

(** Substrings of a description. *)
Module FmtFacts.
Import Fmt.

Lemma Contains_later (pre s sub : string) :
  Contains s sub -> Contains (pre ++ s) sub.
Proof.
  intros (p & q & ->). exists (pre ++ p)%string, q.
  induction pre as [|c pre IH]; simpl; [reflexivity|]. now rewrite IH.
Qed.

Lemma Contains_end (sub : string) : Contains sub sub.
Proof.
  exists ""%string, ""%string. simpl.
  induction sub as [|c s IH]; simpl; [reflexivity|]. now rewrite <- IH.
Qed.

End FmtFacts.

Module ScannerProps.
Import Scanner ScannerFacts Fmt FmtFacts.

(** C8. Every item the scanner sends is complete: its title is the
    entry's name (non-empty, directory entries having non-empty
    names), its footer is the parent path, a slash and the title, and
    its description is the five-field text, whose format field is
    "Text" exactly when the classifier says so and "Bin" otherwise.
    A ten-byte text file that is no directory shows "File size: 10",
    "Directory: No" and "File format: Text"; a directory shows
    "Directory: Yes". *)
Theorem scanned_item_fully_populated (os : OS) (item : Item)
    (Hnames : forall p fs n, ReadDir os p = Ok fs -> In n fs -> n <> ""%string)
    (Hsent : In item (sends (fst (scanDirectory os)))) :
  exists path files st,
    target os = Some path /\
    ReadDir os path = Ok files /\
    In (Title item) files /\
    Stat os (fullPath path (Title item)) = Ok st /\
    Title item <> ""%string /\
    Footer item = (path ++ "/" ++ Title item)%string /\
    Description item =
      ("File size: " ++ itoa (Size st) ++ nl ++
       "Parent dir: " ++ path ++ nl ++
       "File mode: " ++ ModeString os (Mode st) ++ nl ++
       "Directory: " ++ (if IsDir st then "Yes" else "No") ++ nl ++
       "File format: " ++
         (if IsTextFile os (Footer item) then "Text" else "Bin"))%string /\
    (Size st = 10 -> IsDir st = false -> IsTextFile os (Footer item) = true ->
     Contains (Description item) "File size: 10" /\
     Contains (Description item) "Directory: No" /\
     Contains (Description item) "File format: Text") /\
    (IsDir st = true -> Contains (Description item) "Directory: Yes").
Proof.
  destruct (target os) as [path|] eqn:Ht.
  2:{ rewrite (scanDirectory_no_target _ Ht) in Hsent. contradiction. }
  destruct (scanDirectory_target _ Ht) as [Hs _]. rewrite Hs in Hsent.
  unfold scanPath in Hsent.
  destruct (ReadDir os path) as [files|e] eqn:Hl; [|contradiction].
  destruct (in_sends_scanEntries _ _ _ _ Hsent) as (name & st & Hin & Hst & ->).
  exists path, files, st. cbn [Title Footer Description].
  do 4 (split; [assumption || reflexivity|]).
  split; [eapply Hnames; eauto|].
  do 2 (split; [reflexivity|]).
  split.
  - intros Hsize Hdir Htxt. unfold describe. rewrite Hsize, Hdir, Htxt.
    split; [|split].
    + exists ""%string. eexists. reflexivity.
    + do 9 apply Contains_later. exists ""%string. eexists. reflexivity.
    + do 12 apply Contains_later. apply Contains_end.
  - intros Hdir. unfold describe. rewrite Hdir.
    do 9 apply Contains_later. exists ""%string. eexists. reflexivity.
Qed.

Lemma scanned_item_fully_populated_witness :
  exists path files st,
    target Example.os_ab = Some path /\
    ReadDir Example.os_ab path = Ok files /\
    In (Title Example.item_a) files /\
    Stat Example.os_ab (fullPath path (Title Example.item_a)) = Ok st /\
    Title Example.item_a <> ""%string /\
    Footer Example.item_a = (path ++ "/" ++ Title Example.item_a)%string /\
    Description Example.item_a =
      ("File size: " ++ itoa (Size st) ++ nl ++
       "Parent dir: " ++ path ++ nl ++
       "File mode: " ++ ModeString Example.os_ab (Mode st) ++ nl ++
       "Directory: " ++ (if IsDir st then "Yes" else "No") ++ nl ++
       "File format: " ++
         (if IsTextFile Example.os_ab (Footer Example.item_a)
          then "Text" else "Bin"))%string /\
    (Size st = 10 -> IsDir st = false ->
     IsTextFile Example.os_ab (Footer Example.item_a) = true ->
     Contains (Description Example.item_a) "File size: 10" /\
     Contains (Description Example.item_a) "Directory: No" /\
     Contains (Description Example.item_a) "File format: Text") /\
    (IsDir st = true -> Contains (Description Example.item_a) "Directory: Yes").
Proof.
  apply (scanned_item_fully_populated Example.os_ab Example.item_a).
  - intros p fs n [= <-] [<-|[<-|[]]]; discriminate.
  - vm_compute. left. reflexivity.
Defined.

(** C6. When exactly one entry of a listing of N entries cannot be
    stat'ed, the scan logs that entry, goes on, and sends the items
    of the other N-1 entries, in listing order and the same as if the
    failing entry had not been listed. *)
Theorem one_stat_failure_skips_only_that_entry
    (os : OS) (path : string) (pre : list string) (bad : string)
    (post : list string) (e : string)
    (Ht : target os = Some path)
    (Hl : ReadDir os path = Ok (pre ++ bad :: post))
    (Hbad : Stat os (fullPath path bad) = Err e)
    (Hrest : forall n, In n (pre ++ post) ->
                       exists st, Stat os (fullPath path n) = Ok st) :
  let emitted := sends (fst (scanDirectory os)) in
  emitted = sends (scanEntries os path (pre ++ post)) /\
  map Title emitted = pre ++ post /\
  List.length emitted = (List.length (pre ++ bad :: post) - 1)%nat /\
  In (Log (Printfln ("Unable to get stat of '" ++ bad ++ "'. " ++ e)%string))
     (fst (scanDirectory os)) /\
  snd (scanDirectory os) = Returned.
Proof.
  intros emitted.
  destruct (scanDirectory_target _ Ht) as [Hs Hexit].
  destruct (scanDirectory_trace _ Ht) as (intro & Htr & _).
  assert (Hem : emitted = sends (scanEntries os path (pre ++ post))).
  { unfold emitted. rewrite Hs. unfold scanPath. rewrite Hl.
    rewrite !scanEntries_app, scanEntries_cons, !sends_app.
    rewrite (scanEntry_stat_failure _ _ _ Hbad). reflexivity. }
  assert (Hti : map Title emitted = pre ++ post).
  { rewrite Hem. now apply titles_when_all_stat. }
  split; [exact Hem|]. split; [exact Hti|]. split; [|split; [|exact Hexit]].
  - rewrite <- (length_map Title), Hti, !length_app. simpl. lia.
  - rewrite Htr. apply in_or_app. right. unfold scanPath. rewrite Hl.
    rewrite scanEntries_app, scanEntries_cons. apply in_or_app. right.
    rewrite (scanEntry_stat_failure _ _ _ Hbad). simpl. auto.
Qed.

Lemma one_stat_failure_skips_only_that_entry_witness :
  let emitted := sends (fst (scanDirectory Example.os_axb)) in
  emitted = sends (scanEntries Example.os_axb "/d" (["a.txt"] ++ ["b"])) /\
  map Title emitted = ["a.txt"] ++ ["b"] /\
  List.length emitted = (List.length (["a.txt"] ++ "x" :: ["b"]) - 1)%nat /\
  In (Log (Printfln ("Unable to get stat of '" ++ "x" ++ "'. " ++
                     "no such file or directory")%string))
     (fst (scanDirectory Example.os_axb)) /\
  snd (scanDirectory Example.os_axb) = Returned.
Proof.
  apply (@one_stat_failure_skips_only_that_entry
           Example.os_axb "/d" ["a.txt"] "x" ["b"] "no such file or directory").
  - reflexivity.
  - reflexivity.
  - reflexivity.
  - intros n [<-|[<-|[]]]; eexists; reflexivity.
Defined.

End ScannerProps.

(* ================================================================= *)
(** ** The shutdown signal and the input capture *)

Module ShutdownFacts.

Lemma Key_eqb_eq (a b : Key) : Key_eqb a b = true <-> a = b.
Proof.
  destruct a, b; simpl; split; intros H; try discriminate; try reflexivity.
  - apply Z.eqb_eq in H. now subst.
  - injection H as ->. apply Z.eqb_refl.
Qed.

Lemma Key_eqb_neq (a b : Key) : Key_eqb a b = false <-> a <> b.
Proof.
  rewrite <- Key_eqb_eq. destruct (Key_eqb a b); split; congruence.
Qed.



(** A send on the open signal channel with room left buffers the token. *)
Lemma sendStop_room (a : Application) :
  Chan.closed (stopReceiveNewItem a) = false ->
  (List.length (Chan.buf (stopReceiveNewItem a)) < Chan.cap (stopReceiveNewItem a))%nat ->
  sendStop a =
    Done (set_stopReceiveNewItem
            (Chan.mk (Chan.buf (stopReceiveNewItem a) ++ [true])
                     (Chan.cap (stopReceiveNewItem a)) false) a).
Proof.
  intros Hopen Hroom. unfold sendStop, Chan.send. rewrite Hopen.
  apply Nat.ltb_lt in Hroom. now rewrite Hroom.
Qed.

(** A send on the full signal channel waits. *)
Lemma sendStop_full (a : Application) :
  Chan.closed (stopReceiveNewItem a) = false ->
  (Chan.cap (stopReceiveNewItem a) <= List.length (Chan.buf (stopReceiveNewItem a)))%nat ->
  sendStop a = Blocks.
Proof.
  intros Hopen Hfull. unfold sendStop, Chan.send. rewrite Hopen.
  apply Nat.ltb_ge in Hfull. now rewrite Hfull.
Qed.

Lemma sendStops_room (n : nat) : forall a : Application,
  Chan.closed (stopReceiveNewItem a) = false ->
  (List.length (Chan.buf (stopReceiveNewItem a)) + n
   <= Chan.cap (stopReceiveNewItem a))%nat ->
  sendStops n a =
    Done (set_stopReceiveNewItem
            (Chan.mk (Chan.buf (stopReceiveNewItem a) ++ repeat true n)
                     (Chan.cap (stopReceiveNewItem a)) false) a).
Proof.
  induction n as [|n IH]; intros a Hopen Hroom.
  - simpl. rewrite app_nil_r. destruct a as [t lv hv fv dv its sel ia [b c cl] wg].
    simpl in *. now subst cl.
  - cbn [sendStops]. rewrite sendStop_room by (auto; lia). cbn [bind].
    rewrite IH.
    + cbn. now rewrite <- app_assoc.
    + reflexivity.
    + cbn. rewrite length_app. simpl. lia.
Qed.

End ShutdownFacts.

(* ================================================================= *)
(** ** One pass of the ingestion loop *)

Module LoopFacts.

Lemma waitgroupDone_positive (a : Application) :
  1 <= waitgroup a ->
  waitgroupDone a = Done (set_waitgroup (waitgroup a - 1) a).
Proof.
  intros H. unfold waitgroupDone.
  destruct (waitgroup a - 1 <? 0) eqn:E; [|reflexivity].
  apply Z.ltb_lt in E. lia.
Qed.

End LoopFacts.

Module LoopProps.
Import LoopFacts ShutdownFacts.

(** C2, as the code has it.  One pass of the loop, with both channels
    open and only [true] tokens sent: with no token and no item it
    goes round again; with a token and no item it takes the token,
    closes the item channel, releases the wait group and stops,
    consuming no item; with an item and no token it gives the item to
    [addItem]; with both a token and an item [select] takes either
    case, so the item may be handled while the token stays pending. *)
Theorem loopIteration_select (pick : Pick) (a : Application)
    (Hitems : Chan.closed (itemAdded a) = false)
    (Hstop : Chan.closed (stopReceiveNewItem a) = false)
    (Hwg : 1 <= waitgroup a)
    (Htok : forall b, In b (Chan.buf (stopReceiveNewItem a)) -> b = true) :
  loopIteration pick a =
    match Chan.buf (stopReceiveNewItem a), Chan.buf (itemAdded a) with
    | [], [] => Done (a, Running)
    | _ :: tokens, [] => Done (afterStop a tokens, Stopped)
    | [], item :: rest => Done (afterItem a item rest, InQueueUpdateDraw)
    | _ :: tokens, item :: rest =>
        match pick with
        | PickStop => Done (afterStop a tokens, Stopped)
        | PickItem => Done (afterItem a item rest, InQueueUpdateDraw)
        end
    end.
Proof.
  destruct a as [t lv hv fv dv its sel [ib ic icl] [sb sc scl] wg].
  cbn in Hitems, Hstop, Hwg, Htok. subst icl scl.
  assert (Hdone : forall toks,
             waitgroupDone
               (set_itemAdded (Chan.mk ib ic true)
                  (set_stopReceiveNewItem (Chan.mk toks sc false)
                     (mkApp t lv hv fv dv its sel (Chan.mk ib ic false)
                            (Chan.mk sb sc false) wg)))
             = Done (afterStop (mkApp t lv hv fv dv its sel (Chan.mk ib ic false)
                                      (Chan.mk sb sc false) wg) toks)).
  { intros toks. rewrite waitgroupDone_positive by exact Hwg. reflexivity. }
  destruct sb as [|tok toks]; destruct ib as [|item rest]; cbn [Chan.buf].
  - destruct pick; reflexivity.
  - destruct pick; reflexivity.
  - rewrite (Htok tok (or_introl eq_refl)) in *.
    unfold loopIteration, select. cbn -[waitgroupDone afterStop].
    rewrite Hdone. destruct pick; reflexivity.
  - rewrite (Htok tok (or_introl eq_refl)) in *.
    destruct pick.
    + unfold loopIteration, select. cbn -[waitgroupDone afterStop].
      rewrite Hdone. reflexivity.
    + reflexivity.
Qed.

Lemma loopIteration_select_witness :
  loopIteration PickItem Example.both_pending =
    Done (afterItem Example.both_pending Example.item_a [], InQueueUpdateDraw).
Proof.
  apply (loopIteration_select PickItem Example.both_pending).
  - reflexivity.
  - reflexivity.
  - simpl. lia.
  - intros b [<-|[]]. reflexivity.
Defined.

(** C2 as the specification words it fails: after [gofi /d] has sent
    its one item and the user has pressed Ctrl+C, a pass of the loop
    whose [select] takes the item case gives the item to [addItem];
    the token stays in the signal channel and the loop has not stopped. *)
Lemma item_taken_while_shutdown_pending :
  exists s s',
    run [LScan; LScan; LScan; LKey Example.ctrlC] (init Example.os_a) = Done s /\
    Chan.buf (stopReceiveNewItem (app s)) = [true] /\
    Chan.buf (itemAdded (app s)) = [Example.item_a] /\
    step (LLoop PickItem) s = Done s' /\
    items (app s') = [Example.item_a] /\
    Chan.buf (stopReceiveNewItem (app s')) = [true] /\
    loop s' = InQueueUpdateDraw /\
    Chan.closed (itemAdded (app s')) = false.
Proof.
  eexists. eexists.
  split; [vm_compute; reflexivity|].
  split; [reflexivity|]. split; [reflexivity|].
  split; [vm_compute; reflexivity|].
  repeat split.
Qed.

(** C9, within the capacity of the signal channel.  On a fresh signal
    channel (capacity 10) [n] tokens, 1 <= n <= 10, are all sent
    without waiting or panicking; the loop's stop case takes exactly
    the first and stops; [m] more tokens can be sent afterwards as
    long as no more than 10 are buffered, and a send with 10 buffered
    waits; the stopped loop takes none of them. *)
Theorem repeated_shutdown_tolerated (a : Application) (n m : nat)
    (Hstop : stopReceiveNewItem a = Chan.make 10)
    (Hitems : Chan.closed (itemAdded a) = false)
    (Hwg : 1 <= waitgroup a)
    (Hn : (1 <= n <= 10)%nat)
    (Hm : (n - 1 + m <= 10)%nat) :
  exists a1 a2 a3,
    sendStops n a = Done a1 /\
    Chan.buf (stopReceiveNewItem a1) = repeat true n /\
    loopIteration PickStop a1 = Done (a2, Stopped) /\
    Chan.buf (stopReceiveNewItem a2) = repeat true (n - 1) /\
    items a2 = items a /\
    sendStops m a2 = Done a3 /\
    Chan.buf (stopReceiveNewItem a3) = repeat true (n - 1 + m) /\
    ((n - 1 + m = 10)%nat -> sendStop a3 = Blocks) /\
    forall pick sc ex, loopStep pick (mkSystem a3 sc ex Stopped) = Over.
Proof.
  destruct a as [t lv hv fv dv its sel [ib ic icl] sc wg].
  cbn in Hstop, Hitems, Hwg. subst sc icl.
  set (a0 := mkApp t lv hv fv dv its sel (Chan.mk ib ic false) (Chan.make 10) wg).
  assert (H1 : sendStops n a0 =
               Done (set_stopReceiveNewItem (Chan.mk (repeat true n) 10 false) a0)).
  { rewrite sendStops_room; [reflexivity|reflexivity|simpl; lia]. }
  set (a1 := set_stopReceiveNewItem (Chan.mk (repeat true n) 10 false) a0) in *.
  assert (H2 : loopIteration PickStop a1 =
               Done (afterStop a1 (repeat true (n - 1)), Stopped)).
  { destruct n as [|n]; [lia|]. cbn [repeat Nat.sub]. rewrite Nat.sub_0_r.
    subst a1 a0. unfold loopIteration, select.
    destruct ib; cbn -[waitgroupDone afterStop];
      rewrite waitgroupDone_positive by exact Hwg; reflexivity. }
  set (a2 := afterStop a1 (repeat true (n - 1))) in *.
  assert (H3 : sendStops m a2 =
               Done (set_stopReceiveNewItem
                       (Chan.mk (repeat true (n - 1 + m)) 10 false) a2)).
  { rewrite sendStops_room; [|reflexivity|].
    - cbn. now rewrite <- repeat_app.
    - cbn. rewrite repeat_length. lia. }
  exists a1, a2, (set_stopReceiveNewItem
                    (Chan.mk (repeat true (n - 1 + m)) 10 false) a2).
  do 7 (split; [assumption || reflexivity|]).
  split; [|reflexivity].
  intros Hfull. apply sendStop_full; [reflexivity|].
  cbn. rewrite repeat_length. lia.
Qed.

Lemma repeated_shutdown_tolerated_witness :
  exists a1 a2 a3,
    sendStops 2 (set_waitgroup 1 newApplication) = Done a1 /\
    Chan.buf (stopReceiveNewItem a1) = repeat true 2 /\
    loopIteration PickStop a1 = Done (a2, Stopped) /\
    Chan.buf (stopReceiveNewItem a2) = repeat true (2 - 1) /\
    items a2 = items (set_waitgroup 1 newApplication) /\
    sendStops 9 a2 = Done a3 /\
    Chan.buf (stopReceiveNewItem a3) = repeat true (2 - 1 + 9) /\
    ((2 - 1 + 9 = 10)%nat -> sendStop a3 = Blocks) /\
    forall pick sc ex, loopStep pick (mkSystem a3 sc ex Stopped) = Over.
Proof.
  apply (@repeated_shutdown_tolerated (set_waitgroup 1 newApplication) 2%nat 9%nat).
  - reflexivity.
  - reflexivity.
  - simpl. lia.
  - lia.
  - simpl. lia.
Defined.

(** C9 for any number of sends fails at the twelfth: the loop takes
    the first token and stops, ten more fill the signal channel, and
    the next send waits for a receiver that no longer exists. *)
Lemma twelfth_shutdown_send_blocks :
  exists a1 a2 a3,
    sendStop (app (init Example.os_a)) = Done a1 /\
    loopIteration PickStop a1 = Done (a2, Stopped) /\
    sendStops 10 a2 = Done a3 /\
    sendStop a3 = Blocks /\
    forall pick sc ex, loopStep pick (mkSystem a3 sc ex Stopped) = Over.
Proof.
  eexists _, _, _.
  split; [vm_compute; reflexivity|].
  split; [vm_compute; reflexivity|].
  split; [vm_compute; reflexivity|].
  split; [vm_compute; reflexivity|].
  reflexivity.
Qed.

End LoopProps.

(* ================================================================= *)
(** ** The pipeline as a whole *)

Module SystemFacts.
Import Scanner.

(** A property kept by every completed step holds along every run. *)
Lemma run_invariant (P : System -> Prop) :
  (forall l s s', step l s = Done s' -> P s -> P s') ->
  forall ls s s', run ls s = Done s' -> P s -> P s'.
Proof.
  intros Hstep. induction ls as [|l ls IH]; intros s s' Hrun HP.
  - injection Hrun as <-. exact HP.
  - cbn [run] in Hrun. destruct (step l s) as [s1| | |] eqn:Hs; try discriminate.
    cbn [bind] in Hrun. eapply IH; eauto.
Qed.

Lemma scanStep_Inv (sent : list Item) (s s' : System) :
  scanStep s = Done s' -> Inv sent s -> Inv sent s'.
Proof.
  unfold scanStep, Inv, pending. destruct s as [a sc ex lp]. cbn [scanner scannerExit app loop].
  destruct sc as [|[line|item] rest].
  - destruct ex; discriminate.
  - intros [= <-]. cbn. auto.
  - unfold Chan.send.
    destruct (Chan.closed (itemAdded a)) eqn:Hc; [discriminate|].
    destruct (List.length (Chan.buf (itemAdded a)) <? Chan.cap (itemAdded a))%nat;
      [|discriminate].
    intros [= <-] [Hsent Hcl]. cbn. split; [|auto].
    rewrite Hsent. cbn. now rewrite <- app_assoc.
Qed.

Lemma loopIteration_Inv (pick : Pick) (a a' : Application) (lp : Loop) :
  loopIteration pick a = Done (a', lp) ->
  Chan.closed (itemAdded a) = false ->
  items a' ++ Chan.buf (itemAdded a') = items a ++ Chan.buf (itemAdded a) /\
  (lp <> Stopped -> Chan.closed (itemAdded a') = false).
Proof.
  intros H Hc. unfold loopIteration in H.
  destruct (select pick a).
  - destruct (Chan.recv false (stopReceiveNewItem a)) as [[stop c]|]; [|discriminate].
    destruct stop.
    + unfold Chan.close in H. cbn in H. rewrite Hc in H.
      unfold waitgroupDone in H. cbn in H.
      destruct (waitgroup a - 1 <? 0); [discriminate|].
      injection H as <- <-. cbn. split; [reflexivity|congruence].
    + injection H as <- <-. cbn. auto.
  - unfold Chan.recv in H. destruct (Chan.buf (itemAdded a)) as [|v rest] eqn:Hb.
    + rewrite Hc in H. discriminate.
    + injection H as <- <-. cbn. rewrite Hc. split; [|reflexivity].
      now rewrite <- app_assoc.
  - injection H as <- <-. auto.
Qed.

Lemma loopStep_Inv (sent : list Item) (pick : Pick) (s s' : System) :
  loopStep pick s = Done s' -> Inv sent s -> Inv sent s'.
Proof.
  unfold loopStep, Inv, pending. destruct s as [a sc ex lp]. cbn [scanner scannerExit app loop].
  destruct lp; try discriminate.
  destruct (loopIteration pick a) as [[a' lp']| | |] eqn:Hit; try discriminate.
  cbn [bind fst snd]. intros [= <-] [Hsent Hcl]. cbn [scanner scannerExit app loop].
  destruct (loopIteration_Inv _ _ Hit) as [Heq Hcl']; [apply Hcl; discriminate|].
  split; [|exact Hcl'].
  rewrite app_assoc, Heq, <- app_assoc. exact Hsent.
Qed.

(** Reads the state off an equation between two completed results. *)
Ltac done_pair :=
  let H := fresh in intros H; inversion H; subst; auto.

Lemma inputCapture_items (event : EventKey) (a a' : Application) (event' : EventKey) :
  inputCapture event a = Done (a', event') ->
  items a' = items a /\ itemAdded a' = itemAdded a.
Proof.
  unfold inputCapture, sendStop.
  destruct (Key_eqb (EvKey event) KeyCtrlC).
  - destruct (Chan.send (stopReceiveNewItem a) true) as [c| |]; try discriminate.
    cbn [bind]. cbn [focus application set_stopReceiveNewItem].
    destruct (Primitive_eqb (focus (application a)) ListView).
    + destruct (EvRune event =? J); [done_pair|].
      destruct (EvRune event =? K); [done_pair|].
      destruct (EvRune event =? Q); [|done_pair].
      change (stopReceiveNewItem (set_stopReceiveNewItem c a)) with c.
      destruct (Chan.send c true); try discriminate.
      cbn [bind]. done_pair.
    + done_pair.
  - cbn [bind].
    destruct (Primitive_eqb (focus (application a)) ListView).
    + destruct (EvRune event =? J); [done_pair|].
      destruct (EvRune event =? K); [done_pair|].
      destruct (EvRune event =? Q); [|done_pair].
      destruct (Chan.send (stopReceiveNewItem a) true); try discriminate.
      cbn [bind]. done_pair.
    + done_pair.
Qed.

Lemma uiStep_Inv (sent : list Item) (l : Label) (s s' : System) :
  thread_of l = TUI -> step l s = Done s' -> Inv sent s -> Inv sent s'.
Proof.
  unfold Inv, pending. destruct s as [a sc ex lp].
  destruct l as [|pick| |ev|index|]; try discriminate; intros _; cbn [step].
  - unfold updateStep. cbn [app scanner scannerExit loop].
    destruct (stopped (application a)); [discriminate|].
    destruct (updates (application a)) as [|[item] rest]; [discriminate|].
    intros [= <-]. cbn. intros [Hsent Hcl]. split; [exact Hsent|].
    intros Hl. apply Hcl. destruct lp; congruence.
  - unfold keyStep. cbn [app scanner scannerExit loop].
    destruct (stopped (application a)); [discriminate|].
    destruct (inputCapture ev a) as [[a' ev']| | |] eqn:Hic; try discriminate.
    destruct (inputCapture_items _ _ Hic) as [Hi Hch].
    cbn [bind fst snd]. intros [= <-]. cbn [app scanner loop].
    destruct (Key_eqb (EvKey ev') KeyCtrlC); cbn; rewrite Hi, Hch; auto.
  - unfold changedStep, changedFunc. cbn [app scanner scannerExit loop].
    destruct (stopped (application a)); [discriminate|].
    destruct (itemAt (set_selectedItemIndex index a) index); [|discriminate].
    cbn [bind]. intros [= <-]. cbn. auto.
  - unfold mouseStep. cbn [app scanner scannerExit loop].
    destruct (stopped (application a)); [discriminate|].
    intros [= <-]. cbn. auto.
Qed.

Lemma step_Inv (sent : list Item) (l : Label) (s s' : System) :
  step l s = Done s' -> Inv sent s -> Inv sent s'.
Proof.
  destruct l as [|pick| |ev|index|].
  - apply scanStep_Inv.
  - apply loopStep_Inv.
  - apply (@uiStep_Inv sent LUpdate); reflexivity.
  - apply (@uiStep_Inv sent (LKey ev)); reflexivity.
  - apply (@uiStep_Inv sent (LChanged index)); reflexivity.
  - apply (@uiStep_Inv sent LMouse); reflexivity.
Qed.

Lemma init_Inv (os : OS) : Inv (sends (fst (scanDirectory os))) (init os).
Proof. split; reflexivity. Qed.

Lemma reachable_Inv (os : OS) (ls : list Label) (s : System) :
  run ls (init os) = Done s -> Inv (sends (fst (scanDirectory os))) s.
Proof.
  intros Hrun. eapply run_invariant; [|exact Hrun|apply init_Inv].
  intros l s0 s1. apply step_Inv.
Qed.

(** No step changes how the scanner's function ends. *)
Lemma step_scannerExit (l : Label) (s s' : System) :
  step l s = Done s' -> scannerExit s' = scannerExit s.
Proof.
  destruct s as [a sc ex lp].
  destruct l as [|pick| |ev|index|]; cbn [step].
  - unfold scanStep. cbn [scanner scannerExit app loop].
    destruct sc as [|[line|item] rest].
    + destruct ex; discriminate.
    + now intros [= <-].
    + destruct (Chan.send (itemAdded a) item); try discriminate. now intros [= <-].
  - unfold loopStep. cbn [scanner scannerExit app loop].
    destruct lp; try discriminate.
    destruct (loopIteration pick a); try discriminate. now intros [= <-].
  - unfold updateStep. cbn [scanner scannerExit app loop].
    destruct (stopped (application a)); [discriminate|].
    destruct (updates (application a)); [discriminate|]. now intros [= <-].
  - unfold keyStep. cbn [scanner scannerExit app loop].
    destruct (stopped (application a)); [discriminate|].
    destruct (inputCapture ev a); try discriminate. now intros [= <-].
  - unfold changedStep. cbn [scanner scannerExit app loop].
    destruct (stopped (application a)); [discriminate|].
    destruct (changedFunc index a); try discriminate. now intros [= <-].
  - unfold mouseStep. cbn [scanner scannerExit app loop].
    destruct (stopped (application a)); [discriminate|]. now intros [= <-].
Qed.

Lemma reachable_scannerExit (os : OS) (ls : list Label) (s : System) :
  run ls (init os) = Done s -> scannerExit s = snd (scanDirectory os).
Proof.
  intros Hrun.
  apply (@run_invariant (fun s => scannerExit s = snd (scanDirectory os)))
    with (ls := ls) (s := init os); [|exact Hrun|reflexivity].
  intros l s0 s1 Hs H0. rewrite <- H0. eapply step_scannerExit; eauto.
Qed.

(** A scanner with nothing left to send neither waits nor panics. *)
Lemma scanStep_nothing_pending (s : System) :
  pending s = [] -> scannerExit s = Returned ->
  scanStep s <> Blocks /\ scanStep s <> Panics.
Proof.
  unfold pending, scanStep. destruct s as [a sc ex lp].
  cbn [scanner scannerExit]. intros Hp ->.
  destruct sc as [|[line|item] rest]; [split; discriminate|split; discriminate|].
  discriminate.
Qed.

(** With nothing else going on, the draining schedule brings every
    item the scanner sends into [items], in the order of the sends. *)
Lemma drain_run (tr : list event) :
  forall f lv hv fv dv its sel c sc wg ex,
  exists lv' fv',
    run (drain tr)
        (mkSystem (mkApp (mkTview f [] false) lv hv fv dv its sel
                         (Chan.mk [] (S c) false) (Chan.mk [] sc false) wg)
                  tr ex Running)
    = Done (mkSystem (mkApp (mkTview f [] false) lv' hv fv' dv
                            (its ++ sends tr) sel
                            (Chan.mk [] (S c) false) (Chan.mk [] sc false) wg)
                     [] ex Running).
Proof.
  induction tr as [|[line|item] tr IH]; intros.
  - exists lv, fv. cbn. now rewrite app_nil_r.
  - change (drain (Log line :: tr)) with (LScan :: drain tr).
    cbn [run step scanStep scanner scannerExit app loop bind].
    destruct (IH f lv hv fv dv its sel c sc wg ex) as (lv' & fv' & H).
    exists lv', fv'. exact H.
  - change (drain (Send item :: tr))
      with (LScan :: LLoop PickItem :: LUpdate :: drain tr).
    destruct (IH f (lv ++ [Title item]) hv
                 (footerText sel
                    (mkApp (mkTview f [] false) (lv ++ [Title item]) hv fv dv
                           (its ++ [item]) sel
                           (Chan.mk [] (S c) false) (Chan.mk [] sc false) wg)
                    (Footer item))
                 dv (its ++ [item]) sel c sc wg ex) as (lv' & fv' & H).
    exists lv', fv'.
    replace (its ++ sends (Send item :: tr)) with ((its ++ [item]) ++ sends tr)
      by (now rewrite <- app_assoc).
    exact H.
Qed.

End SystemFacts.

Module SystemProps.
Import Scanner ScannerFacts SystemFacts.

(** C5. In every state the program reaches, whatever the schedule,
    the items the scanner sends are, in the order of the sends: the
    items of the application, then the items waiting in the channel,
    then the items still to be sent.  So [items] is always the first
    part of what the scanner sends, in the same order; and for every
    number of sends there is a schedule after which [items] is all of
    them. *)
Theorem items_follow_send_order (os : OS) (ls : list Label) (s : System)
    (Hrun : run ls (init os) = Done s) :
  let sent := sends (fst (scanDirectory os)) in
  sent = items (app s) ++ Chan.buf (itemAdded (app s)) ++ pending s /\
  (pending s = [] -> Chan.buf (itemAdded (app s)) = [] -> items (app s) = sent) /\
  exists ls' s', run ls' (init os) = Done s' /\ items (app s') = sent.
Proof.
  intros sent. destruct (reachable_Inv _ _ Hrun) as [Hsent _].
  fold sent in Hsent. split; [exact Hsent|]. split.
  - intros Hp Hb. rewrite Hsent, Hp, Hb, !app_nil_r. reflexivity.
  - destruct (drain_run (fst (scanDirectory os)) ListView [] "" "" "" [] 0
                        99 10 1 (snd (scanDirectory os))) as (lv' & fv' & H).
    exists (drain (fst (scanDirectory os))). eexists. split; [exact H|].
    reflexivity.
Qed.

Lemma items_follow_send_order_witness :
  let sent := sends (fst (scanDirectory Example.os_ab)) in
  sent = [Example.item_a] ++ [Example.item_b] ++ [] /\
  (@nil Item = [] -> [Example.item_b] = [] -> [Example.item_a] = sent) /\
  exists ls' s',
    run ls' (init Example.os_ab) = Done s' /\ items (app s') = sent.
Proof.
  apply (@items_follow_send_order Example.os_ab
           [LScan; LScan; LScan; LLoop PickItem; LUpdate; LScan; LScan]
           (mkSystem
              (mkApp (mkTview ListView [] false)
                     ["a.txt"%string] ""%string "1/1: /d/a.txt"%string ""%string
                     [Example.item_a] 0
                     (Chan.mk [Example.item_b] 100 false)
                     (Chan.make 10) 1)
              [] Returned Running)).
  vm_compute. reflexivity.
Defined.

(** C7. When the working directory cannot be resolved, or the target
    directory cannot be listed, the scan ends with the log line that
    says so and returns; it sends nothing.  Whatever the schedule
    after that, the scanner goroutine never waits and never panics,
    [items] stays empty, and a running UI still handles its keys. *)
Theorem scan_failure_is_terminal (os : OS) (ls : list Label) (s : System)
    (Hfail : (exists prog e, Args os = [prog] /\ Getwd os = Err e) \/
             (exists path e, target os = Some path /\ ReadDir os path = Err e))
    (Hrun : run ls (init os) = Done s) :
  sends (fst (scanDirectory os)) = [] /\
  snd (scanDirectory os) = Returned /\
  (exists intro e,
      fst (scanDirectory os) =
        intro ++ [Log (Fmt.Println ["Unable to get current directory. "%string; e])] \/
      exists path,
        fst (scanDirectory os) =
          intro ++ [Log (Fmt.Println ["Unable to read dir: "%string; path; e])]) /\
  items (app s) = [] /\
  scanStep s <> Blocks /\ scanStep s <> Panics /\
  (stopped (application (app s)) = false ->
   exists s', step (LKey (NewEventKey KeyRune J ModNone)) s = Done s').
Proof.
  assert (Hscan : sends (fst (scanDirectory os)) = [] /\
                  snd (scanDirectory os) = Returned /\
                  exists intro e,
                    fst (scanDirectory os) =
                      intro ++ [Log (Fmt.Println
                                       ["Unable to get current directory. "%string; e])] \/
                    exists path,
                      fst (scanDirectory os) =
                        intro ++ [Log (Fmt.Println
                                         ["Unable to read dir: "%string; path; e])]).
  { destruct Hfail as [(prog & e & Ha & Hg)|(path & e & Ht & Hl)].
    - unfold scanDirectory. rewrite Ha, Hg. split; [reflexivity|]. split; [reflexivity|].
      exists [Log (Fmt.Println ["No path, using current working directory"%string])], e.
      left. reflexivity.
    - destruct (scanDirectory_target _ Ht) as [Hs Hex].
      destruct (scanDirectory_trace _ Ht) as (intro & Htr & _).
      split; [|split; [exact Hex|]].
      + rewrite Hs. unfold scanPath. rewrite Hl. reflexivity.
      + exists intro, e. right. exists path. rewrite Htr. unfold scanPath.
        rewrite Hl. reflexivity. }
  destruct Hscan as (Hnone & Hret & Hlog).
  destruct (reachable_Inv _ _ Hrun) as [Hsent _]. rewrite Hnone in Hsent.
  symmetry in Hsent. apply app_eq_nil in Hsent. destruct Hsent as [Hitems Hrest].
  apply app_eq_nil in Hrest. destruct Hrest as [_ Hpend].
  pose proof (reachable_scannerExit _ _ Hrun) as Hex. rewrite Hret in Hex.
  destruct (scanStep_nothing_pending _ Hpend Hex) as [Hnb Hnp].
  do 3 (split; [assumption|]). split; [exact Hitems|].
  split; [exact Hnb|]. split; [exact Hnp|].
  intros Hui. cbn [step]. unfold keyStep. rewrite Hui.
  unfold inputCapture. cbn [EvKey EvRune Key_eqb bind].
  destruct (Primitive_eqb (focus (application (app s))) ListView);
    cbn; eexists; reflexivity.
Qed.

Lemma scan_failure_is_terminal_witness :
  sends (fst (scanDirectory Example.os_nowd)) = [] /\
  snd (scanDirectory Example.os_nowd) = Returned /\
  (exists intro e,
      fst (scanDirectory Example.os_nowd) =
        intro ++ [Log (Fmt.Println ["Unable to get current directory. "%string; e])] \/
      exists path,
        fst (scanDirectory Example.os_nowd) =
          intro ++ [Log (Fmt.Println ["Unable to read dir: "%string; path; e])]) /\
  items (app (init Example.os_nowd)) = [] /\
  scanStep (init Example.os_nowd) <> Blocks /\
  scanStep (init Example.os_nowd) <> Panics /\
  (stopped (application (app (init Example.os_nowd))) = false ->
   exists s', step (LKey (NewEventKey KeyRune J ModNone)) (init Example.os_nowd)
              = Done s').
Proof.
  apply (@scan_failure_is_terminal Example.os_nowd [] (init Example.os_nowd)).
  - left. exists "gofi"%string, "getwd: no such file or directory"%string.
    split; reflexivity.
  - reflexivity.
Defined.

End SystemProps.

(* ================================================================= *)
(** ** Where the code departs from its specification *)

Module Departures.
Import Scanner.

(** The footer written by the closure of [addItem] carries the footer
    of the item just added, whichever item is selected. *)
Lemma addItem_footer (item : Item) (a : Application) :
  footerView (runUpdate (AddItemDraw item) (addItem item a)) =
    (Fmt.itoa (Fmt.wrap_int (selectedItemIndex a + 1)) ++ "/" ++
     Fmt.itoa (Z.of_nat (List.length (items a) + 1)) ++ ": " ++ Footer item)%string.
Proof.
  unfold runUpdate, addItem, footerText. cbn.
  rewrite length_app. reflexivity.
Qed.

(** C1. [addItem] appends to [items] before it queues its closure:
    the append is a step of the ingestion goroutine, not of the UI.
    With [a.txt] and [b] shown and [c] waiting in the channel, the
    loop's pass changes [items] while the list widget, updated
    through the queue, still shows two entries; in the same state
    the UI goroutine may run the selection callback for the second
    entry, which reads [items]. *)
Theorem items_appended_by_ingestion_goroutine :
  exists s s' s2,
    run [LScan; LScan; LScan; LLoop PickItem; LUpdate;
         LScan; LScan; LLoop PickItem; LUpdate; LScan; LScan]
        (init Example.os_abc) = Done s /\
    items (app s) = [Example.item_a; Example.item_b] /\
    step (LLoop PickItem) s = Done s' /\
    thread_of (LLoop PickItem) = TIngest /\
    items (app s') = [Example.item_a; Example.item_b; Example.item_c] /\
    listView (app s') = ["a.txt"%string; "b"%string] /\
    updates (application (app s')) = [AddItemDraw Example.item_c] /\
    step (LChanged 1) s = Done s2 /\
    thread_of (LChanged 1) = TUI.
Proof.
  eexists _, _, _.
  split; [vm_compute; reflexivity|].
  split; [reflexivity|].
  split; [vm_compute; reflexivity|].
  split; [reflexivity|].
  split; [reflexivity|].
  split; [reflexivity|].
  split; [reflexivity|].
  split; [vm_compute; reflexivity|].
  reflexivity.
Qed.

(** C3. The stopping loop closes the item channel, and a send on a
    closed channel panics: with [a.txt] still to be sent when the
    user presses Ctrl+C and the loop stops, the scanner's send does
    not wait, it panics. *)
Theorem send_after_shutdown_panics :
  exists s,
    run [LScan; LScan; LKey Example.ctrlC; LLoop PickStop]
        (init Example.os_a) = Done s /\
    loop s = Stopped /\
    pending s = [Example.item_a] /\
    Chan.closed (itemAdded (app s)) = true /\
    step LScan s = Panics.
Proof.
  eexists.
  split; [vm_compute; reflexivity|].
  split; [reflexivity|].
  split; [reflexivity|].
  split; [reflexivity|].
  reflexivity.
Qed.

(** C4. With [a.txt] shown and selected, appending [b] as the second
    item sets the footer to "1/2: /d/b": the count is right, the path
    is the one of the item just added and not the one of the selected
    item, "/d/a.txt". *)
Theorem footer_shows_appended_item :
  exists s selected,
    run [LScan; LScan; LScan; LLoop PickItem; LUpdate; LChanged 0;
         LScan; LScan; LLoop PickItem; LUpdate]
        (init Example.os_ab) = Done s /\
    selectedItemIndex (app s) = 0 /\
    List.length (items (app s)) = 2%nat /\
    itemAt (app s) (selectedItemIndex (app s)) = Some selected /\
    Footer selected = "/d/a.txt"%string /\
    footerView (app s) = "1/2: /d/b"%string /\
    footerView (app s) <> "1/2: /d/a.txt"%string.
Proof.
  eexists _, _.
  split; [vm_compute; reflexivity|].
  split; [reflexivity|].
  split; [reflexivity|].
  split; [reflexivity|].
  split; [reflexivity|].
  split; [reflexivity|].
  discriminate.
Qed.

End Departures.

(* ================================================================= *)
(** ** More on the scanner *)

Module ScannerMore.
Import Scanner ScannerFacts.

Lemma titles_scanEntries (os : OS) (path : string) (files : list string) :
  map Title (sends (scanEntries os path files)) = filter (statable os path) files.
Proof.
  induction files as [|n l IH]; [reflexivity|].
  rewrite scanEntries_cons, sends_app, map_app, IH.
  unfold scanEntry, statable. cbn [filter].
  destruct (Stat os (fullPath path n)); reflexivity.
Qed.

Lemma footers_scanEntries (os : OS) (path : string) (files : list string) :
  map Footer (sends (scanEntries os path files)) =
    map (fullPath path) (filter (statable os path) files).
Proof.
  induction files as [|n l IH]; [reflexivity|].
  rewrite scanEntries_cons, sends_app, map_app, IH.
  unfold scanEntry, statable. cbn [filter].
  destruct (Stat os (fullPath path n)); reflexivity.
Qed.

(** X1. Whatever number of entries cannot be stat'ed, the scan sends
    one item for each listed entry that can, in listing order: the
    titles are the listed names that stat, the footers their full
    paths, and no more items are sent than entries are listed. *)
Theorem scan_sends_the_statable_entries
    (os : OS) (path : string) (files : list string)
    (Ht : target os = Some path)
    (Hl : ReadDir os path = Ok files) :
  let emitted := sends (fst (scanDirectory os)) in
  map Title emitted = filter (statable os path) files /\
  map Footer emitted = map (fullPath path) (filter (statable os path) files) /\
  (List.length emitted <= List.length files)%nat /\
  snd (scanDirectory os) = Returned.
Proof.
  intros emitted. destruct (scanDirectory_target _ Ht) as [Hs Hex].
  assert (He : emitted = sends (scanEntries os path files)).
  { unfold emitted. rewrite Hs. unfold scanPath. now rewrite Hl. }
  rewrite He. split; [apply titles_scanEntries|].
  split; [apply footers_scanEntries|]. split; [|exact Hex].
  rewrite <- (length_map Title), titles_scanEntries. apply filter_length_le.
Qed.

Lemma scan_sends_the_statable_entries_witness :
  let emitted := sends (fst (scanDirectory Example.os_axb)) in
  map Title emitted = filter (statable Example.os_axb "/d") ["a.txt"; "x"; "b"]%string /\
  map Footer emitted =
    map (fullPath "/d") (filter (statable Example.os_axb "/d") ["a.txt"; "x"; "b"]%string) /\
  (List.length emitted <= List.length ["a.txt"; "x"; "b"]%string)%nat /\
  snd (scanDirectory Example.os_axb) = Returned.
Proof.
  apply (@scan_sends_the_statable_entries Example.os_axb "/d" ["a.txt"; "x"; "b"]%string).
  - reflexivity.
  - reflexivity.
Defined.

Lemma scanEntry_ext (os1 os2 : OS) (path name : string) :
  (forall p, Stat os1 p = Stat os2 p) ->
  (forall p, IsTextFile os1 p = IsTextFile os2 p) ->
  (forall m, ModeString os1 m = ModeString os2 m) ->
  scanEntry os1 path name = scanEntry os2 path name.
Proof.
  intros Hs Ht Hm. unfold scanEntry, describe. rewrite Hs, Ht.
  destruct (Stat os2 (fullPath path name)); [|reflexivity]. now rewrite Hm.
Qed.

Lemma scanPath_ext (os1 os2 : OS) (path : string) :
  (forall p, ReadDir os1 p = ReadDir os2 p) ->
  (forall p, Stat os1 p = Stat os2 p) ->
  (forall p, IsTextFile os1 p = IsTextFile os2 p) ->
  (forall m, ModeString os1 m = ModeString os2 m) ->
  scanPath os1 path = scanPath os2 path.
Proof.
  intros Hr Hs Ht Hm. unfold scanPath, scanEntries. rewrite Hr.
  destruct (ReadDir os2 path) as [files|e]; [|reflexivity].
  apply flat_map_ext. intros name. now apply scanEntry_ext.
Qed.

(** X2. Started without a path argument, the scanner sends exactly
    what it sends when the working directory is given as the
    argument, on the same file system; further arguments and the
    program name play no part. *)
Theorem no_argument_scans_working_directory
    (os1 os2 : OS) (prog1 prog2 dir : string) (extra : list string)
    (Hargs1 : Args os1 = [prog1])
    (Hwd : Getwd os1 = Ok dir)
    (Hargs2 : Args os2 = prog2 :: dir :: extra)
    (Hr : forall p, ReadDir os1 p = ReadDir os2 p)
    (Hs : forall p, Stat os1 p = Stat os2 p)
    (Ht : forall p, IsTextFile os1 p = IsTextFile os2 p)
    (Hm : forall m, ModeString os1 m = ModeString os2 m) :
  sends (fst (scanDirectory os1)) = sends (fst (scanDirectory os2)) /\
  snd (scanDirectory os1) = snd (scanDirectory os2).
Proof.
  unfold scanDirectory. rewrite Hargs1, Hwd, Hargs2. cbn [fst snd].
  split; [|reflexivity].
  change (sends (scanPath os1 dir) = sends (scanPath os2 dir)).
  now rewrite (scanPath_ext os1 os2 dir Hr Hs Ht Hm).
Qed.

Lemma no_argument_scans_working_directory_witness :
  sends (fst (scanDirectory Sample.os_cwd)) = sends (fst (scanDirectory Example.os_ab)) /\
  snd (scanDirectory Sample.os_cwd) = snd (scanDirectory Example.os_ab).
Proof.
  apply (@no_argument_scans_working_directory
           Sample.os_cwd Example.os_ab "gofi" "gofi" "/d" []);
    reflexivity.
Defined.

End ScannerMore.

(* ================================================================= *)
(** ** The directory-listing example *)

Module ListingProps.
Import Scanner Listing.

Lemma printEntries_all (os : OS) (dir : string) (files : list string) :
  (forall n, In n files -> exists st, Stat os (dir ++ "/" ++ n)%string = Ok st) ->
  snd (printEntries os dir files) = Returned /\
  Forall2 (fun l n => exists st, Stat os (dir ++ "/" ++ n)%string = Ok st /\
                                 l = line os n st)
          (fst (printEntries os dir files)) files.
Proof.
  induction files as [|n l IH]; intros Hall; cbn [printEntries].
  - split; [reflexivity|constructor].
  - destruct (Hall n (or_introl eq_refl)) as [st Hst]. rewrite Hst. cbn [fst snd].
    destruct IH as [IH1 IH2]; [intros m Hm; apply Hall; now right|].
    split; [exact IH1|]. constructor; [exists st; auto|exact IH2].
Qed.

Lemma printEntries_returned (os : OS) (dir : string) (files : list string) :
  snd (printEntries os dir files) = Returned ->
  forall n, In n files -> exists st, Stat os (dir ++ "/" ++ n)%string = Ok st.
Proof.
  induction files as [|m l IH]; cbn [printEntries]; intros Hret n Hin.
  - contradiction.
  - destruct (Stat os (dir ++ "/" ++ m)%string) as [st|e] eqn:Hst; [|discriminate].
    destruct Hin as [<-|Hin]; [eauto|]. now apply IH.
Qed.

Lemma printEntries_failure (os : OS) (dir : string) (pre : list string)
      (bad : string) (post : list string) (e : string) :
  (forall n, In n pre -> exists st, Stat os (dir ++ "/" ++ n)%string = Ok st) ->
  Stat os (dir ++ "/" ++ bad)%string = Err e ->
  printEntries os dir (pre ++ bad :: post) =
    (fst (printEntries os dir pre), Panicked).
Proof.
  induction pre as [|n l IH]; intros Hall Hbad.
  - cbn [List.app printEntries]. now rewrite Hbad.
  - cbn [List.app printEntries].
    destruct (Hall n (or_introl eq_refl)) as [st Hst]. rewrite Hst.
    rewrite IH; [reflexivity| |exact Hbad].
    intros m Hm. apply Hall. now right.
Qed.

(** X3. The listing example, once the directory is listed, returns
    exactly when every entry can be stat'ed; it has then printed the
    header and one line per entry, "mode name", in listing order. *)
Theorem listing_returns_iff_all_stat (os : OS) (dir : string) (files : list string)
    (Hwd : Getwd os = Ok dir)
    (Hl : ReadDir os dir = Ok files) :
  (snd (main os) = Returned <->
   forall n, In n files -> exists st, Stat os (dir ++ "/" ++ n)%string = Ok st) /\
  (snd (main os) = Returned ->
   List.length (fst (main os)) = S (List.length files) /\
   Forall2 (fun l n => exists st, Stat os (dir ++ "/" ++ n)%string = Ok st /\
                                  l = (ModeString os (Mode st) ++ " " ++ n ++ Fmt.nl)%string)
           (tl (fst (main os))) files).
Proof.
  unfold main. rewrite Hwd, Hl. cbn [fst snd tl].
  split.
  - split; [apply printEntries_returned|]. intros Hall.
    now destruct (printEntries_all os dir files Hall).
  - intros Hret. pose proof (printEntries_returned _ _ _ Hret) as Hall.
    destruct (printEntries_all os dir files Hall) as [_ HF].
    split; [|exact HF]. cbn [List.length]. f_equal.
    eapply Forall2_length; eauto.
Qed.

Lemma listing_returns_iff_all_stat_witness :
  (snd (main Sample.os_cwd) = Returned <->
   forall n, In n ["a.txt"; "b"]%string ->
             exists st, Stat Sample.os_cwd ("/d" ++ "/" ++ n)%string = Ok st) /\
  (snd (main Sample.os_cwd) = Returned ->
   List.length (fst (main Sample.os_cwd)) = S (List.length ["a.txt"; "b"]%string) /\
   Forall2 (fun l n => exists st,
                Stat Sample.os_cwd ("/d" ++ "/" ++ n)%string = Ok st /\
                l = (ModeString Sample.os_cwd (Mode st) ++ " " ++ n ++ Fmt.nl)%string)
           (tl (fst (main Sample.os_cwd))) ["a.txt"; "b"]%string).
Proof.
  apply (@listing_returns_iff_all_stat Sample.os_cwd "/d" ["a.txt"; "b"]%string).
  - reflexivity.
  - reflexivity.
Defined.

(** X4. Where the scanner skips an entry it cannot stat, the listing
    example panics at it: it has printed the header and the lines of
    the entries before, and prints nothing of the entries after. *)
Theorem listing_panics_at_first_failure
    (os : OS) (dir : string) (pre : list string) (bad : string)
    (post : list string) (e : string)
    (Hwd : Getwd os = Ok dir)
    (Hl : ReadDir os dir = Ok (pre ++ bad :: post))
    (Hpre : forall n, In n pre -> exists st, Stat os (dir ++ "/" ++ n)%string = Ok st)
    (Hbad : Stat os (dir ++ "/" ++ bad)%string = Err e) :
  snd (main os) = Panicked /\
  fst (main os) =
    ("Current working directory is: " ++ dir ++ Fmt.nl)%string ::
    fst (printEntries os dir pre) /\
  List.length (fst (main os)) = S (List.length pre).
Proof.
  unfold main. rewrite Hwd, Hl. rewrite (printEntries_failure _ _ _ _ _ Hpre Hbad).
  cbn [fst snd]. split; [reflexivity|]. split; [reflexivity|].
  cbn [List.length]. f_equal.
  destruct (printEntries_all os dir pre Hpre) as [_ HF].
  eapply Forall2_length; eauto.
Qed.

Lemma listing_panics_at_first_failure_witness :
  snd (main Sample.os_cwd_axb) = Panicked /\
  fst (main Sample.os_cwd_axb) =
    ("Current working directory is: " ++ "/d" ++ Fmt.nl)%string ::
    fst (printEntries Sample.os_cwd_axb "/d" ["a.txt"%string]) /\
  List.length (fst (main Sample.os_cwd_axb)) = S (List.length ["a.txt"%string]).
Proof.
  apply (@listing_panics_at_first_failure
           Sample.os_cwd_axb "/d" ["a.txt"%string] "x" ["b"%string]
           "no such file or directory").
  - reflexivity.
  - reflexivity.
  - intros n [<-|[]]. eexists. reflexivity.
  - reflexivity.
Defined.

End ListingProps.

(* ================================================================= *)
(** ** More on the handlers *)

Module HandlerProps.
Import ShutdownFacts.

Lemma wrap_int_small (z : Z) :
  - 2 ^ 63 <= z < 2 ^ 63 -> Fmt.wrap_int z = z.
Proof.
  intros H. unfold Fmt.wrap_int. rewrite Z.mod_small; lia.
Qed.

(** X5. Whatever the key and the focus, the input capture leaves
    everything but the signal channel as it was: when it returns, the
    state differs from the one before by the tokens appended to the
    signal channel, one for a Ctrl+C and one for a q typed on the
    focused list. *)
Theorem inputCapture_only_sends
    (event : EventKey) (a a' : Application) (event' : EventKey)
    (Hdone : inputCapture event a = Done (a', event')) :
  a' = set_stopReceiveNewItem (stopReceiveNewItem a') a /\
  Chan.buf (stopReceiveNewItem a') =
    Chan.buf (stopReceiveNewItem a) ++
    repeat true ((if Key_eqb (EvKey event) KeyCtrlC then 1 else 0) +
                 (if Primitive_eqb (focus (application a)) ListView
                     && Z.eqb (EvRune event) Q then 1 else 0))%nat /\
  Chan.cap (stopReceiveNewItem a') = Chan.cap (stopReceiveNewItem a).
Proof.
  destruct a as [[f u st] lv hv fv dv its sel ia [sb sc scl] wg].
  revert Hdone. unfold inputCapture, sendStop, Chan.send.
  destruct (Z.eqb_spec (EvRune event) J) as [HJ|HJ];
    destruct (Z.eqb_spec (EvRune event) K) as [HK|HK];
    destruct (Z.eqb_spec (EvRune event) Q) as [HQ|HQ];
    try (exfalso; unfold J, K, Q in *; lia).
  all: repeat first
         [ progress cbn [bind stopReceiveNewItem Chan.closed Chan.buf Chan.cap
                         application set_stopReceiveNewItem focus andb
                         Nat.add repeat]
         | match goal with
           | |- context [Key_eqb ?x ?y] => destruct (Key_eqb x y)
           | |- context [(?n <? ?m)%nat] => destruct (n <? m)%nat
           | |- context [if ?b then _ else _] => is_var b; destruct b
           | |- context [Primitive_eqb ?x ?y] => destruct (Primitive_eqb x y)
           end ].
  all: try discriminate.
  all: intros H; inversion H; subst; cbn;
    rewrite <- ?app_assoc, ?app_nil_r; auto.
Qed.

Lemma inputCapture_only_sends_witness :
  set_stopReceiveNewItem (Chan.mk [true] 10 false) newApplication =
    set_stopReceiveNewItem
      (stopReceiveNewItem
         (set_stopReceiveNewItem (Chan.mk [true] 10 false) newApplication))
      newApplication /\
  Chan.buf (stopReceiveNewItem
              (set_stopReceiveNewItem (Chan.mk [true] 10 false) newApplication)) =
    Chan.buf (stopReceiveNewItem newApplication) ++
    repeat true ((if Key_eqb (EvKey Example.keyQ) KeyCtrlC then 1 else 0) +
                 (if Primitive_eqb (focus (application newApplication)) ListView
                     && Z.eqb (EvRune Example.keyQ) Q then 1 else 0))%nat /\
  Chan.cap (stopReceiveNewItem
              (set_stopReceiveNewItem (Chan.mk [true] 10 false) newApplication)) =
    Chan.cap (stopReceiveNewItem newApplication).
Proof.
  apply (@inputCapture_only_sends Example.keyQ newApplication
           (set_stopReceiveNewItem (Chan.mk [true] 10 false) newApplication)
           (NewEventKey KeyCtrlC 0 ModCtrl)).
  reflexivity.
Defined.

(** X6. A key that is neither Ctrl+C nor q never sends a token and
    never waits, even on a full signal channel: with the list focused
    j comes back as the Down key and k as the Up key, any other key
    comes back as it is, and the state is untouched. *)
Theorem other_keys_never_send (event : EventKey) (a : Application)
    (Hkey : EvKey event <> KeyCtrlC)
    (Hq : EvRune event <> Q) :
  inputCapture event a =
    Done (a,
          if Primitive_eqb (focus (application a)) ListView
          then if EvRune event =? J then NewEventKey KeyDown 0 ModNone
               else if EvRune event =? K then NewEventKey KeyUp 0 ModNone
               else event
          else event).
Proof.
  unfold inputCapture. apply Key_eqb_neq in Hkey. rewrite Hkey. cbn [bind].
  apply Z.eqb_neq in Hq. rewrite Hq.
  destruct (Primitive_eqb (focus (application a)) ListView); [|reflexivity].
  destruct (EvRune event =? J); [reflexivity|].
  destruct (EvRune event =? K); reflexivity.
Qed.

Lemma other_keys_never_send_witness :
  inputCapture Sample.keyJ newApplication =
    Done (newApplication,
          if Primitive_eqb (focus (application newApplication)) ListView
          then if EvRune Sample.keyJ =? J then NewEventKey KeyDown 0 ModNone
               else if EvRune Sample.keyJ =? K then NewEventKey KeyUp 0 ModNone
               else Sample.keyJ
          else Sample.keyJ).
Proof.
  apply (@other_keys_never_send Sample.keyJ newApplication).
  - discriminate.
  - discriminate.
Defined.

(** X7. For an index inside [items] the selection callback records the
    index and shows the item at it: its title in the header, its
    description in the description view, and "index+1/count: footer"
    in the footer; [items] and the list widget are left as they were. *)
Theorem changedFunc_shows_selected
    (a : Application) (index : Z) (item : Item)
    (Hpos : 0 <= index)
    (Hnth : nth_error (items a) (Z.to_nat index) = Some item)
    (Hlen : Z.of_nat (List.length (items a)) < 2 ^ 63) :
  exists a',
    changedFunc index a = Done a' /\
    selectedItemIndex a' = index /\
    headerView a' = Title item /\
    descriptionView a' = Description item /\
    footerView a' =
      (Fmt.itoa (index + 1) ++ "/" ++
       Fmt.itoa (Z.of_nat (List.length (items a))) ++ ": " ++ Footer item)%string /\
    items a' = items a /\
    listView a' = listView a.
Proof.
  unfold changedFunc, itemAt. cbn [items set_selectedItemIndex].
  destruct (index <? 0) eqn:Hneg; [apply Z.ltb_lt in Hneg; lia|].
  rewrite Hnth. eexists. split; [reflexivity|].
  cbn. unfold footerText. cbn.
  assert (Hidx : (Z.to_nat index < List.length (items a))%nat).
  { apply nth_error_Some. congruence. }
  rewrite wrap_int_small by lia.
  repeat split.
Qed.

Lemma changedFunc_shows_selected_witness :
  exists a',
    changedFunc 1 Sample.two_shown = Done a' /\
    selectedItemIndex a' = 1 /\
    headerView a' = Title Example.item_b /\
    descriptionView a' = Description Example.item_b /\
    footerView a' =
      (Fmt.itoa (1 + 1) ++ "/" ++
       Fmt.itoa (Z.of_nat (List.length (items Sample.two_shown))) ++ ": " ++
       Footer Example.item_b)%string /\
    items a' = items Sample.two_shown /\
    listView a' = listView Sample.two_shown.
Proof.
  apply (@changedFunc_shows_selected Sample.two_shown 1 Example.item_b).
  - lia.
  - reflexivity.
  - cbn. lia.
Defined.

(** X8. For an index outside [items] the selection callback panics at
    [app.items[index]]. *)
Theorem changedFunc_out_of_range (a : Application) (index : Z)
    (Hout : index < 0 \/ Z.of_nat (List.length (items a)) <= index) :
  changedFunc index a = Panics.
Proof.
  unfold changedFunc, itemAt. cbn [items set_selectedItemIndex].
  destruct (index <? 0) eqn:Hneg; [reflexivity|].
  apply Z.ltb_ge in Hneg.
  assert (Hnone : nth_error (items a) (Z.to_nat index) = None).
  { apply nth_error_None. lia. }
  now rewrite Hnone.
Qed.

Lemma changedFunc_out_of_range_witness :
  changedFunc 2 Sample.two_shown = Panics.
Proof.
  apply (@changedFunc_out_of_range Sample.two_shown 2).
  right. cbn. lia.
Defined.

(** X9. After a click on the list, which gives it the focus, a q
    starts the shutdown wherever the focus was before: it sends one
    token and comes back as Ctrl+C.  (The signal channel is open and
    has room.) *)
Theorem click_then_q_quits (a : Application) (event : EventKey)
    (Hkey : EvKey event <> KeyCtrlC)
    (Hq : EvRune event = Q)
    (Hopen : Chan.closed (stopReceiveNewItem a) = false)
    (Hroom : (List.length (Chan.buf (stopReceiveNewItem a))
              < Chan.cap (stopReceiveNewItem a))%nat) :
  inputCapture event (mouseCapture a) =
    Done (set_stopReceiveNewItem
            (Chan.mk (Chan.buf (stopReceiveNewItem a) ++ [true])
                     (Chan.cap (stopReceiveNewItem a)) false)
            (mouseCapture a),
          NewEventKey KeyCtrlC 0 ModCtrl).
Proof.
  unfold inputCapture. apply Key_eqb_neq in Hkey. rewrite Hkey, Hq. cbn [bind].
  change (focus (application (mouseCapture a))) with ListView.
  cbn [Primitive_eqb]. change (Q =? J) with false. change (Q =? K) with false.
  change (Q =? Q) with true. cbv iota.
  rewrite sendStop_room by assumption. reflexivity.
Qed.

Lemma click_then_q_quits_witness :
  inputCapture Example.keyQ (mouseCapture Sample.two_shown) =
    Done (set_stopReceiveNewItem
            (Chan.mk (Chan.buf (stopReceiveNewItem Sample.two_shown) ++ [true])
                     (Chan.cap (stopReceiveNewItem Sample.two_shown)) false)
            (mouseCapture Sample.two_shown),
          NewEventKey KeyCtrlC 0 ModCtrl).
Proof.
  apply (@click_then_q_quits Sample.two_shown Example.keyQ).
  - discriminate.
  - reflexivity.
  - reflexivity.
  - cbn. lia.
Defined.

End HandlerProps.

(* ================================================================= *)
(** ** What every reachable state keeps *)

Module SafeFacts.
Import Scanner SystemFacts ShutdownFacts.

(** Case analysis of a step down to its branches. *)
Ltac branches :=
  repeat first
    [ progress cbn [bind fst snd app scanner scannerExit loop
                    application listView headerView footerView descriptionView
                    items selectedItemIndex itemAdded stopReceiveNewItem waitgroup
                    focus updates stopped
                    set_application set_listView set_headerView set_footerView
                    set_descriptionView set_items set_selectedItemIndex
                    set_itemAdded set_stopReceiveNewItem set_waitgroup
                    set_focus set_updates set_stopped
                    Chan.buf Chan.cap Chan.closed]
    | match goal with
      | |- context [match ?x with _ => _ end] => is_var x; destruct x
      | |- context [(?n <? ?m)%nat] =>
          let E := fresh "Hlt" in destruct (n <? m)%nat eqn:E
      | |- context [?n <? ?m] => destruct (Z.ltb_spec n m)
      | |- context [Key_eqb ?x ?y] => destruct (Key_eqb x y)
      | |- context [Primitive_eqb ?x ?y] => destruct (Primitive_eqb x y)
      | |- context [?n =? ?m] => destruct (n =? m)
      | |- context [nth_error ?l ?n] => destruct (nth_error l n)
      end ].

Lemma in_snoc_true (l : list bool) :
  (forall b, In b l -> b = true) -> forall b, In b (l ++ [true]) -> b = true.
Proof.
  intros H b Hb. apply in_app_or in Hb. destruct Hb as [Hb|[<-|[]]]; auto.
Qed.

Ltac lengths :=
  rewrite ?length_app in *; cbn [List.length] in *;
  repeat match goal with
         | H : (_ <? _)%nat = true |- _ => apply Nat.ltb_lt in H
         end;
  lia.

(** Ends a branch: reads the new state off the completed step and
    settles the conjuncts from the ones assumed. *)
Ltac settle :=
  try discriminate;
  let Hd := fresh "Hdone" in
  intros Hd; inversion Hd; subst; clear Hd; cbn;
  intuition (auto using in_snoc_true; try discriminate; try congruence;
             try lia; try lengths;
             try solve [repeat match goal with
                               | H : In _ (_ ++ [true]) |- _ =>
                                   apply in_app_or in H;
                                   destruct H as [H|[<-|[]]]
                               end; auto];
             try solve [match goal with
                        | H : forall b : bool, _ -> b = true |- _ = true =>
                            apply H; cbn; auto
                        end]).

Lemma step_Safe (l : Label) (s s' : System) :
  step l s = Done s' -> Safe s -> Safe s'.
Proof.
  destruct s as [[[f u st] lv hv fv dv its sel [ib ic icl] [sb scap scl] wg] sc ex lp].
  destruct l as [|pick| |ev|index|]; cbn [step].
  - unfold Safe, scanStep, Chan.send. branches; settle.
  - unfold Safe, loopStep, loopIteration, select, Chan.ready, Chan.recv, Chan.close,
      waitgroupDone, addItem.
    branches; settle.
  - unfold Safe, updateStep, runUpdate. branches; settle.
  - unfold Safe, keyStep, inputCapture, sendStop, Chan.send. branches; settle.
  - unfold Safe, changedStep, changedFunc, itemAt. branches; settle.
  - unfold Safe, mouseStep, mouseCapture. branches; settle.
Qed.

Ltac settle_lists :=
  try discriminate;
  let Hd := fresh "Hdone" in
  intros Hd; inversion Hd; subst; clear Hd; cbn;
  intuition (try discriminate; try congruence);
  rewrite ?map_app; cbn [map updateTitle Title];
  repeat match goal with
         | H : map Title _ = _ |- _ => rewrite H
         end;
  rewrite <- ?app_assoc, ?app_nil_r; cbn; auto.

Lemma step_Mirror (l : Label) (s s' : System) :
  step l s = Done s' -> Mirror s -> Mirror s'.
Proof.
  destruct s as [[[f u st] lv hv fv dv its sel [ib ic icl] [sb scap scl] wg] sc ex lp].
  destruct l as [|pick| |ev|index|]; cbn [step].
  - unfold Mirror, scanStep, Chan.send. branches; settle_lists.
  - unfold Mirror, loopStep, loopIteration, select, Chan.ready, Chan.recv, Chan.close,
      waitgroupDone, addItem.
    branches; settle_lists.
  - unfold Mirror, updateStep, runUpdate. branches; settle_lists.
  - unfold Mirror, keyStep, inputCapture, sendStop, Chan.send. branches; settle_lists.
  - unfold Mirror, changedStep, changedFunc, itemAt. branches; settle_lists.
  - unfold Mirror, mouseStep, mouseCapture. branches; settle_lists.
Qed.

Lemma init_Safe (os : OS) : Safe (init os).
Proof. unfold Safe. cbn. intuition (try discriminate; try lia). Qed.

Lemma init_Mirror (os : OS) : Mirror (init os).
Proof. unfold Mirror. cbn. split; [reflexivity|discriminate]. Qed.

Lemma reachable_Safe (os : OS) (ls : list Label) (s : System) :
  run ls (init os) = Done s -> Safe s.
Proof.
  intros Hrun. eapply run_invariant; [|exact Hrun|apply init_Safe].
  intros l s0 s1. apply step_Safe.
Qed.

Lemma reachable_Mirror (os : OS) (ls : list Label) (s : System) :
  run ls (init os) = Done s -> Mirror s.
Proof.
  intros Hrun. eapply run_invariant; [|exact Hrun|apply init_Mirror].
  intros l s0 s1. apply step_Mirror.
Qed.

Ltac settle_items :=
  try discriminate;
  let Hd := fresh "Hdone" in
  intros Hd; inversion Hd; subst; clear Hd; cbn;
  try (eexists []; now rewrite app_nil_r);
  try (eexists [_]; reflexivity).

(** A step only ever appends to [items]. *)
Lemma step_appends (l : Label) (s s' : System) :
  step l s = Done s' -> exists more, items (app s') = items (app s) ++ more.
Proof.
  destruct s as [[[f u st] lv hv fv dv its sel [ib ic icl] [sb scap scl] wg] sc ex lp].
  destruct l as [|pick| |ev|index|]; cbn [step].
  - unfold scanStep, Chan.send. branches; settle_items.
  - unfold loopStep, loopIteration, select, Chan.ready, Chan.recv, Chan.close,
      waitgroupDone, addItem.
    branches; settle_items.
  - unfold updateStep, runUpdate. branches; settle_items.
  - unfold keyStep, inputCapture, sendStop, Chan.send. branches; settle_items.
  - unfold changedStep, changedFunc, itemAt. branches; settle_items.
  - unfold mouseStep, mouseCapture. branches; settle_items.
Qed.

Ltac settle_frozen :=
  try discriminate;
  let Hd := fresh "Hdone" in
  intros Hd; inversion Hd; subst; clear Hd; cbn;
  intuition (try discriminate; try congruence).

(** Once the loop has stopped it stays stopped and [items] is frozen. *)
Lemma step_after_stop (l : Label) (s s' : System) :
  step l s = Done s' -> loop s = Stopped ->
  loop s' = Stopped /\ items (app s') = items (app s).
Proof.
  destruct s as [[[f u st] lv hv fv dv its sel [ib ic icl] [sb scap scl] wg] sc ex lp].
  destruct l as [|pick| |ev|index|]; cbn [step].
  - unfold scanStep, Chan.send. branches; settle_frozen.
  - unfold loopStep. branches; settle_frozen.
  - unfold updateStep, runUpdate. branches; settle_frozen.
  - unfold keyStep, inputCapture, sendStop, Chan.send. branches; settle_frozen.
  - unfold changedStep, changedFunc, itemAt. branches; settle_frozen.
  - unfold mouseStep, mouseCapture. branches; settle_frozen.
Qed.

Lemma run_appends (ls : list Label) : forall s s',
  run ls s = Done s' -> exists more, items (app s') = items (app s) ++ more.
Proof.
  induction ls as [|l ls IH]; intros s s' Hrun.
  - injection Hrun as <-. exists []. now rewrite app_nil_r.
  - cbn [run] in Hrun. destruct (step l s) as [s1| | |] eqn:Hs; try discriminate.
    cbn [bind] in Hrun. destruct (step_appends _ _ Hs) as [m1 H1].
    destruct (IH _ _ Hrun) as [m2 H2]. exists (m1 ++ m2).
    now rewrite H2, H1, app_assoc.
Qed.

Lemma run_after_stop (ls : list Label) : forall s s',
  run ls s = Done s' -> loop s = Stopped ->
  loop s' = Stopped /\ items (app s') = items (app s).
Proof.
  induction ls as [|l ls IH]; intros s s' Hrun Hstop.
  - injection Hrun as <-. auto.
  - cbn [run] in Hrun. destruct (step l s) as [s1| | |] eqn:Hs; try discriminate.
    cbn [bind] in Hrun. destruct (step_after_stop _ _ Hs Hstop) as [H1 H2].
    destruct (IH _ _ Hrun H1) as [H3 H4]. split; [exact H3|congruence].
Qed.

Ltac settle_selected :=
  try discriminate;
  let Hd := fresh "Hdone" in
  intros Hd; inversion Hd; subst; clear Hd; cbn;
  intros [_ Hq] (Hs0 & Hs1 & Hs2);
  (split; [assumption|split; [try (destruct Hs1; [left; assumption|right; lengths]); try assumption|]]);
  intros item' rest' Heq;
  try discriminate; try contradiction; try congruence;
  try (eapply Hs2; eassumption);
  try (injection Heq as <- <-; eexists; reflexivity).

Lemma step_Selected (l : Label) (s s' : System) :
  step l s = Done s' -> Mirror s -> Selected s -> Selected s'.
Proof.
  destruct s as [[[f u st] lv hv fv dv its sel [ib ic icl] [sb scap scl] wg] sc ex lp].
  destruct l as [|pick| |ev|index|]; cbn [step].
  - unfold Mirror, Selected, scanStep, Chan.send. branches; settle_selected.
  - unfold Mirror, Selected, loopStep, loopIteration, select, Chan.ready, Chan.recv,
      Chan.close, waitgroupDone, addItem.
    branches; settle_selected.
  - unfold Mirror, Selected, updateStep, runUpdate. branches; settle_selected.
  - unfold Mirror, Selected, keyStep, inputCapture, sendStop, Chan.send.
    branches; settle_selected.
  - unfold Mirror, Selected, changedStep, changedFunc, itemAt.
    cbn [app scanner scannerExit loop application stopped items
         set_selectedItemIndex].
    destruct st; [discriminate|].
    destruct (Z.ltb_spec index 0) as [Hneg|Hpos]; [discriminate|].
    destruct (nth_error its (Z.to_nat index)) as [item|] eqn:Hnth; [|discriminate].
    cbn [bind]. intros [= <-] _ (Hs0 & Hs1 & Hs2). cbn.
    assert (Hidx : (Z.to_nat index < List.length its)%nat).
    { apply nth_error_Some. congruence. }
    split; [exact Hpos|]. split; [right; lia|exact Hs2].
  - unfold Mirror, Selected, mouseStep, mouseCapture. branches; settle_selected.
Qed.

Lemma init_Selected (os : OS) : Selected (init os).
Proof.
  unfold Selected. cbn. split; [lia|]. split; [now left|]. discriminate.
Qed.

Lemma reachable_Selected (os : OS) (ls : list Label) (s : System) :
  run ls (init os) = Done s -> Selected s.
Proof.
  intros Hrun.
  apply (@run_invariant (fun s => Mirror s /\ Selected s))
    with (ls := ls) (s := init os); [|exact Hrun|split; [apply init_Mirror|apply init_Selected]].
  intros l s0 s1 Hs [HM HSel]. split.
  - eapply step_Mirror; eauto.
  - eapply step_Selected; eauto.
Qed.

End SafeFacts.

Module PipelineProps.
Import Scanner SystemFacts SafeFacts.

Lemma Safe_no_panic (s : System) (pick : Pick) (ev : EventKey) :
  Safe s ->
  step (LLoop pick) s <> Panics /\ step (LKey ev) s <> Panics /\
  step LUpdate s <> Panics /\ step LMouse s <> Panics.
Proof.
  destruct s as [[[f u st] lv hv fv dv its sel [ib ic icl] [sb scap scl] wg] sc ex lp].
  intros HS. repeat split; revert HS; cbn [step].
  - unfold Safe, loopStep, loopIteration, select, Chan.ready, Chan.recv, Chan.close,
      waitgroupDone, addItem.
    branches; cbn; intuition (try discriminate; try congruence; try lia).
  - unfold Safe, keyStep, inputCapture, sendStop, Chan.send.
    branches; cbn; intuition (try discriminate; try congruence; try lia).
  - unfold Safe, updateStep. branches; cbn; intuition discriminate.
  - unfold Safe, mouseStep. branches; cbn; intuition discriminate.
Qed.



(** X11. In every state the program reaches, no pass of the loop, no
    key, no queued update and no mouse event panics: the item channel
    is closed once only, the wait group released once only, and the
    signal channel is never closed. *)
Theorem loop_and_ui_never_panic (os : OS) (ls : list Label) (s : System)
    (pick : Pick) (ev : EventKey)
    (Hrun : run ls (init os) = Done s) :
  step (LLoop pick) s <> Panics /\ step (LKey ev) s <> Panics /\
  step LUpdate s <> Panics /\ step LMouse s <> Panics.
Proof.
  apply Safe_no_panic. eapply reachable_Safe; eauto.
Qed.

Lemma loop_and_ui_never_panic_witness :
  step (LLoop PickStop) Sample.quitting <> Panics /\
  step (LKey Example.ctrlC) Sample.quitting <> Panics /\
  step LUpdate Sample.quitting <> Panics /\
  step LMouse Sample.quitting <> Panics.
Proof.
  apply (@loop_and_ui_never_panic Example.os_a
           [LScan; LScan; LScan; LKey Example.ctrlC] Sample.quitting
           PickStop Example.ctrlC).
  vm_compute. reflexivity.
Defined.

(** X12. In every state the program reaches, the [Wait()] that ends
    [start] returns exactly when the loop has stopped, and waits as
    long as it has not. *)
Theorem wait_returns_when_loop_stopped (os : OS) (ls : list Label) (s : System)
    (Hrun : run ls (init os) = Done s) :
  (waitgroupWait (app s) = Done (app s) <-> loop s = Stopped) /\
  (loop s <> Stopped -> waitgroupWait (app s) = Blocks).
Proof.
  destruct (reachable_Safe _ _ Hrun) as (_ & _ & _ & _ & _ & _ & Hwg & _).
  unfold waitgroupWait. rewrite Hwg.
  destruct (loop s); cbn; split; try split; try discriminate; try congruence; auto.
Qed.

Lemma wait_returns_when_loop_stopped_witness :
  (waitgroupWait (app Sample.stopped_early) = Done (app Sample.stopped_early) <->
   loop Sample.stopped_early = Stopped) /\
  (loop Sample.stopped_early <> Stopped ->
   waitgroupWait (app Sample.stopped_early) = Blocks).
Proof.
  apply (@wait_returns_when_loop_stopped Example.os_ab
           [LScan; LScan; LScan; LLoop PickItem; LUpdate;
            LKey Example.ctrlC; LLoop PickStop; LScan] Sample.stopped_early).
  vm_compute. reflexivity.
Defined.

(** X13. In every state the program reaches with the loop at its
    [select] and a token in the signal channel, a pass that takes the
    stop case stops the loop, whatever waits in the item channel: the
    items there stay unconsumed, [items] is unchanged, the item channel
    is closed and the [Wait()] of [start] can return.  With no item
    waiting, every pass takes the stop case. *)
Theorem pending_shutdown_stops_loop (os : OS) (ls : list Label) (s : System)
    (Hrun : run ls (init os) = Done s)
    (Hloop : loop s = Running)
    (Htok : Chan.buf (stopReceiveNewItem (app s)) <> []) :
  exists s',
    step (LLoop PickStop) s = Done s' /\
    loop s' = Stopped /\
    items (app s') = items (app s) /\
    Chan.buf (itemAdded (app s')) = Chan.buf (itemAdded (app s)) /\
    Chan.closed (itemAdded (app s')) = true /\
    waitgroupWait (app s') = Done (app s') /\
    (Chan.buf (itemAdded (app s)) = [] ->
     forall pick, step (LLoop pick) s = Done s').
Proof.
  pose proof (reachable_Safe _ _ Hrun) as HS.
  destruct s as [[[f u st] lv hv fv dv its sel [ib ic icl] [sb scap scl] wg] sc ex lp].
  unfold Safe in HS. cbn in HS, Hloop, Htok.
  destruct HS as (S1 & S2 & S3 & S4 & S5 & S6 & S7 & [S8 S9]). subst lp scl.
  cbn in S7. subst wg.
  destruct icl; [specialize (S8 eq_refl); discriminate|].
  destruct sb as [|tok toks]; [contradiction|].
  rewrite (S2 tok (or_introl eq_refl)).
  eexists. split.
  { cbn [step]. unfold loopStep, loopIteration, select. cbn.
    destruct ib; reflexivity. }
  cbn. repeat split.
  intros -> pick. destruct pick; reflexivity.
Qed.

Lemma pending_shutdown_stops_loop_witness :
  exists s',
    step (LLoop PickStop) Sample.quitting = Done s' /\
    loop s' = Stopped /\
    items (app s') = items (app Sample.quitting) /\
    Chan.buf (itemAdded (app s')) = Chan.buf (itemAdded (app Sample.quitting)) /\
    Chan.closed (itemAdded (app s')) = true /\
    waitgroupWait (app s') = Done (app s') /\
    (Chan.buf (itemAdded (app Sample.quitting)) = [] ->
     forall pick, step (LLoop pick) Sample.quitting = Done s').
Proof.
  apply (@pending_shutdown_stops_loop Example.os_a
           [LScan; LScan; LScan; LKey Example.ctrlC] Sample.quitting).
  - vm_compute. reflexivity.
  - reflexivity.
  - vm_compute. discriminate.
Defined.

(** X14. Along any schedule from any state [items] only grows at its
    end, and once the loop has stopped it no longer changes and the
    loop stays stopped. *)
Theorem items_only_grow (ls : list Label) (s s' : System)
    (Hrun : run ls s = Done s') :
  (exists more, items (app s') = items (app s) ++ more) /\
  (loop s = Stopped -> items (app s') = items (app s) /\ loop s' = Stopped).
Proof.
  split; [eapply run_appends; eauto|].
  intros Hstop. destruct (run_after_stop _ _ Hrun Hstop). auto.
Qed.

Lemma items_only_grow_witness :
  (exists more,
      items (app Sample.stopped_early) = items (app (init Example.os_ab)) ++ more) /\
  (loop (init Example.os_ab) = Stopped ->
   items (app Sample.stopped_early) = items (app (init Example.os_ab)) /\
   loop Sample.stopped_early = Stopped).
Proof.
  apply (@items_only_grow
           [LScan; LScan; LScan; LLoop PickItem; LUpdate;
            LKey Example.ctrlC; LLoop PickStop; LScan]
           (init Example.os_ab) Sample.stopped_early).
  vm_compute. reflexivity.
Defined.

(** X15. In every state the program reaches with an item next to be
    sent, the scanner's send panics when the loop has stopped; while
    the loop has not stopped it puts the item at the end of the
    channel when fewer than 100 items wait there, and waits when 100
    do; more than 100 never wait. *)
Theorem scanner_send_outcome (os : OS) (ls : list Label) (s : System)
    (item : Item) (rest : list event)
    (Hrun : run ls (init os) = Done s)
    (Hnext : scanner s = Send item :: rest) :
  (List.length (Chan.buf (itemAdded (app s))) <= 100)%nat /\
  (loop s = Stopped -> step LScan s = Panics) /\
  (loop s <> Stopped ->
   (List.length (Chan.buf (itemAdded (app s))) < 100)%nat ->
   exists s', step LScan s = Done s' /\
              Chan.buf (itemAdded (app s')) = Chan.buf (itemAdded (app s)) ++ [item] /\
              scanner s' = rest) /\
  (loop s <> Stopped ->
   List.length (Chan.buf (itemAdded (app s))) = 100%nat ->
   step LScan s = Blocks).
Proof.
  pose proof (reachable_Safe _ _ Hrun) as HS.
  destruct s as [[[f u st] lv hv fv dv its sel [ib ic icl] [sb scap scl] wg] sc ex lp].
  unfold Safe in HS. cbn in HS, Hnext.
  destruct HS as (S1 & S2 & S3 & S4 & S5 & S6 & S7 & [S8 S9]). subst sc ic.
  cbn [step]. unfold scanStep, Chan.send.
  cbn [app scanner scannerExit loop itemAdded Chan.closed Chan.buf Chan.cap].
  split; [exact S6|]. split; [|split].
  - intros Hl. now rewrite (S9 Hl).
  - intros Hl Hlen. destruct icl; [now specialize (S8 eq_refl)|].
    apply Nat.ltb_lt in Hlen. rewrite Hlen. eexists. repeat split.
  - intros Hl Hlen. destruct icl; [now specialize (S8 eq_refl)|].
    rewrite Hlen. reflexivity.
Qed.

Lemma scanner_send_outcome_witness :
  (List.length (Chan.buf (itemAdded (app Sample.before_send))) <= 100)%nat /\
  (loop Sample.before_send = Stopped -> step LScan Sample.before_send = Panics) /\
  (loop Sample.before_send <> Stopped ->
   (List.length (Chan.buf (itemAdded (app Sample.before_send))) < 100)%nat ->
   exists s', step LScan Sample.before_send = Done s' /\
              Chan.buf (itemAdded (app s')) =
                Chan.buf (itemAdded (app Sample.before_send)) ++ [Example.item_a] /\
              scanner s' = []) /\
  (loop Sample.before_send <> Stopped ->
   List.length (Chan.buf (itemAdded (app Sample.before_send))) = 100%nat ->
   step LScan Sample.before_send = Blocks).
Proof.
  apply (@scanner_send_outcome Example.os_a [LScan; LScan] Sample.before_send
           Example.item_a []).
  - vm_compute. reflexivity.
  - vm_compute. reflexivity.
Defined.

(** X16. In every state the program reaches the selected index is
    never negative and, once [items] is not empty, it is the index of
    one of the items. *)
Theorem selection_stays_valid (os : OS) (ls : list Label) (s : System)
    (Hrun : run ls (init os) = Done s) :
  0 <= selectedItemIndex (app s) /\
  (items (app s) <> [] ->
   exists item, itemAt (app s) (selectedItemIndex (app s)) = Some item).
Proof.
  destruct (reachable_Selected _ _ Hrun) as (H0 & H1 & _).
  split; [exact H0|]. intros Hne. unfold itemAt.
  destruct (Z.ltb_spec (selectedItemIndex (app s)) 0) as [Hneg|_]; [lia|].
  assert (Hlt : (Z.to_nat (selectedItemIndex (app s))
                 < List.length (items (app s)))%nat).
  { destruct (items (app s)) as [|i l]; [contradiction|]. cbn [List.length] in *.
    destruct H1 as [->|H1]; lia. }
  apply nth_error_Some in Hlt.
  destruct (nth_error (items (app s)) (Z.to_nat (selectedItemIndex (app s))));
    [eauto|contradiction].
Qed.

Lemma selection_stays_valid_witness :
  0 <= selectedItemIndex (app Sample.drawing) /\
  (items (app Sample.drawing) <> [] ->
   exists item,
     itemAt (app Sample.drawing) (selectedItemIndex (app Sample.drawing)) = Some item).
Proof.
  apply (@selection_stays_valid Example.os_ab
           [LScan; LScan; LScan; LLoop PickItem; LUpdate;
            LScan; LScan; LLoop PickItem] Sample.drawing).
  vm_compute. reflexivity.
Defined.

(** X17. In every state the program reaches, when the UI runs a queued
    update the update is the one of the item appended last: afterwards
    the list widget shows the titles of all of [items], the loop goes
    on, and the footer reads "selected+1/count: footer" with the count
    of [items] and the footer of that last item. *)
Theorem drawn_update_shows_count (os : OS) (ls : list Label) (s s' : System)
    (Hrun : run ls (init os) = Done s)
    (Hstep : step LUpdate s = Done s')
    (Hlen : Z.of_nat (List.length (items (app s))) < 2 ^ 63) :
  exists front item,
    items (app s') = front ++ [item] /\
    items (app s') = items (app s) /\
    listView (app s') = map Title (items (app s')) /\
    updates (application (app s')) = [] /\
    loop s' = Running /\
    footerView (app s') =
      (Fmt.itoa (selectedItemIndex (app s) + 1) ++ "/" ++
       Fmt.itoa (Z.of_nat (List.length (items (app s)))) ++ ": " ++
       Footer item)%string.
Proof.
  destruct (reachable_Mirror _ _ Hrun) as [Hm Hu].
  destruct (reachable_Selected _ _ Hrun) as (H0 & H1 & Hq).
  destruct s as [[[f u st] lv hv fv dv its sel [ib ic icl] [sb scap scl] wg] sc ex lp].
  cbn in Hm, Hu, H0, H1, Hq, Hlen. cbn [step] in Hstep. unfold updateStep in Hstep.
  cbn [app application stopped updates] in Hstep.
  destruct st; [discriminate|].
  destruct u as [|[item] [|u' rest]]; [discriminate| |contradiction].
  subst lp. destruct (Hq item [] eq_refl) as [front Hfront].
  injection Hstep as <-. exists front, item. cbn.
  split; [exact Hfront|]. split; [reflexivity|].
  split; [now rewrite Hm|]. split; [reflexivity|]. split; [reflexivity|].
  unfold footerText. cbn [items selectedItemIndex set_listView].
  rewrite HandlerProps.wrap_int_small; [reflexivity|].
  assert (Hpos : (0 < List.length its)%nat).
  { rewrite Hfront, length_app. cbn. lia. }
  destruct H1 as [->|H1]; lia.
Qed.

Lemma drawn_update_shows_count_witness :
  exists front item,
    items (app (Sample.after
                  [LScan; LScan; LScan; LLoop PickItem; LUpdate;
                   LScan; LScan; LLoop PickItem; LUpdate] Example.os_ab))
      = front ++ [item] /\
    items (app (Sample.after
                  [LScan; LScan; LScan; LLoop PickItem; LUpdate;
                   LScan; LScan; LLoop PickItem; LUpdate] Example.os_ab))
      = items (app Sample.drawing) /\
    listView (app (Sample.after
                     [LScan; LScan; LScan; LLoop PickItem; LUpdate;
                      LScan; LScan; LLoop PickItem; LUpdate] Example.os_ab))
      = map Title
          (items (app (Sample.after
                         [LScan; LScan; LScan; LLoop PickItem; LUpdate;
                          LScan; LScan; LLoop PickItem; LUpdate] Example.os_ab))) /\
    updates (application
               (app (Sample.after
                       [LScan; LScan; LScan; LLoop PickItem; LUpdate;
                        LScan; LScan; LLoop PickItem; LUpdate] Example.os_ab))) = [] /\
    loop (Sample.after
            [LScan; LScan; LScan; LLoop PickItem; LUpdate;
             LScan; LScan; LLoop PickItem; LUpdate] Example.os_ab) = Running /\
    footerView (app (Sample.after
                       [LScan; LScan; LScan; LLoop PickItem; LUpdate;
                        LScan; LScan; LLoop PickItem; LUpdate] Example.os_ab)) =
      (Fmt.itoa (selectedItemIndex (app Sample.drawing) + 1) ++ "/" ++
       Fmt.itoa (Z.of_nat (List.length (items (app Sample.drawing)))) ++ ": " ++
       Footer item)%string.
Proof.
  apply (@drawn_update_shows_count Example.os_ab
           [LScan; LScan; LScan; LLoop PickItem; LUpdate;
            LScan; LScan; LLoop PickItem] Sample.drawing).
  - vm_compute. reflexivity.
  - vm_compute. reflexivity.
  - vm_compute. reflexivity.
Defined.

End PipelineProps.

(* ================================================================= *)
(** ** The input capture and the capacity of the signal channel *)

Module CaptureProps.
Import ShutdownFacts SystemFacts SafeFacts.





End CaptureProps.
